(** * emitlog: the buffering writer and its severity classifier

    A shallow embedding of [writer.go] and [config.go]: the [Config]
    record, the [BufferingWriter] state, [parseLogLevel], [Write],
    [Flush], [ShouldSaveOnSuccess] and [Finalize], followed by the
    properties of the buffering and flush decision engine. *)

From Stdlib Require Import Strings.Byte Strings.String.
From Stdlib Require Import ZArith List Bool Lia.
From Stdlib Require Import Floats.
Import ListNotations.

Local Open Scope Z_scope.

(** ** Go's [int] on a 64-bit target *)

Module GoInt.

Definition min_int : Z := - 2 ^ 63.
Definition max_int : Z := 2 ^ 63 - 1.

Definition in_range (z : Z) : Prop := min_int <= z <= max_int.

(** Two's complement wrap-around of a mathematical result. *)
Definition wrap (z : Z) : Z := (z + 2 ^ 63) mod 2 ^ 64 - 2 ^ 63.

(** [a + b] on [int]. *)
Definition add (a b : Z) : Z := wrap (a + b).

End GoInt.

Arguments GoInt.wrap : simpl never.
Arguments GoInt.add : simpl never.

(** ** Byte slices and the parts of package [bytes] the writer uses *)

Definition bytes := list byte.

(** [len(p)]. *)
Definition len (p : bytes) : Z := Z.of_nat (length p).

(** [[]byte("...")] for a literal without quotation marks. *)
Definition lit (s : string) : bytes := list_byte_of_string s.

(** [bytes.HasPrefix(s, prefix)]. *)
Fixpoint HasPrefix (s prefix : bytes) {struct prefix} : bool :=
  match prefix, s with
  | [], _ => true
  | _ :: _, [] => false
  | x :: prefix', y :: s' => Byte.eqb x y && HasPrefix s' prefix'
  end.

(** [bytes.Contains(b, subslice)]: [subslice] starts at some offset of [b]. *)
Fixpoint Contains (b subslice : bytes) : bool :=
  HasPrefix b subslice ||
  match b with
  | [] => false
  | _ :: b' => Contains b' subslice
  end.

(** ** Severity levels ([zerolog.Level]) and the classifier *)

(** The seven level constants [parseLogLevel] can return. *)
Inductive Level : Type :=
| TraceLevel
| DebugLevel
| InfoLevel
| WarnLevel
| ErrorLevel
| FatalLevel
| PanicLevel.

(** The marker ["level":"<name>"], quotation marks included (byte 0x22;
    the colon is byte 0x3a). *)
Definition level_marker (name : string) : bytes :=
  [x22] ++ lit "level" ++ [x22; x3a; x22] ++ lit name ++ [x22].

(** [parseLogLevel] of writer.go: the receiver is not read. *)
Definition parseLogLevel (data : bytes) : Level :=
  if Contains data (level_marker "trace") then TraceLevel
  else if Contains data (level_marker "debug") then DebugLevel
  else if Contains data (level_marker "info") then InfoLevel
  else if Contains data (level_marker "warn") then WarnLevel
  else if Contains data (level_marker "error") then ErrorLevel
  else if Contains data (level_marker "fatal") then FatalLevel
  else if Contains data (level_marker "panic") then PanicLevel
  else InfoLevel.

(** ** Configuration (config.go) *)

Record Config : Type := mkConfig {
  SaveRate : float;
  BufferingEnabled : bool;
  FlushOnError : bool;
  FlushOnWarn : bool;
  BufferSize : Z
}.

Definition DefaultConfig : Config :=
  {| SaveRate := 5%float;
     BufferingEnabled := true;
     FlushOnError := true;
     FlushOnWarn := false;
     BufferSize := 64 * 1024 |}.

(** ** The writer's own fields

    [finalWriter] is a reference to the downstream sink, whose state lives
    in the [World] below; [mu] makes every method one atomic transition and
    has no field here. *)

Record BufferingWriter : Type := mkBufferingWriter {
  buffer : bytes;
  shouldFlush : bool;
  config : Config;
  requestID : string;
  bufferSize : Z
}.

Definition set_buffer (b : bytes) (bw : BufferingWriter) : BufferingWriter :=
  {| buffer := b; shouldFlush := shouldFlush bw; config := config bw;
     requestID := requestID bw; bufferSize := bufferSize bw |}.

Definition set_shouldFlush (f : bool) (bw : BufferingWriter) : BufferingWriter :=
  {| buffer := buffer bw; shouldFlush := f; config := config bw;
     requestID := requestID bw; bufferSize := bufferSize bw |}.

Definition set_bufferSize (n : Z) (bw : BufferingWriter) : BufferingWriter :=
  {| buffer := buffer bw; shouldFlush := shouldFlush bw; config := config bw;
     requestID := requestID bw; bufferSize := n |}.

(** [NewBufferingWriter]: an empty buffer, the flag and the counter at their
    zero values. *)
Definition NewBufferingWriter (cfg : Config) (id : string) : BufferingWriter :=
  {| buffer := []; shouldFlush := false; config := cfg;
     requestID := id; bufferSize := 0 |}.

(** [ShouldSaveOnSuccess]; [rnd] is the value [rand.Float64()] yields when
    the last line is reached. *)
Definition ShouldSaveOnSuccess (bw : BufferingWriter) (rnd : float) : bool :=
  if negb (BufferingEnabled (config bw)) then true
  else if (SaveRate (config bw) <=? 0)%float then false
  else if (100 <=? SaveRate (config bw))%float then true
  else (rnd * 100 <? SaveRate (config bw))%float.

(** ** Outcomes of a method call

    A call either returns or ends in a run-time panic; the only panic on
    the writer's paths is [bytes.ErrTooLarge] from [bytes.Buffer.Write]. *)

Inductive outcome (A : Type) : Type :=
| Ret (a : A)
| Panic.

Arguments Ret {A} a.
Arguments Panic {A}.

Section Writer.

(** The downstream sink behind the [io.Writer] interface: any state type
    [W], any error type, any total [Write] method returning [(n, err)]
    ([None] is [nil]). *)
Variable error : Type.
Variable W : Type.
Variable sink_write : bytes -> W -> (Z * option error) * W.

Definition result : Type := (Z * option error)%type.

(** What lies outside the writer: the sink's state, and a ghost log of
    every call made to [finalWriter.Write] with the result it gave. *)
Record World : Type := mkWorld {
  sink : W;
  calls : list (bytes * result)
}.

(** The payloads handed to the sink so far, oldest first. *)
Definition sent (w : World) : list bytes := map fst (calls w).

(** *** A state monad over the writer and the world, with panics *)

Definition M (A : Type) : Type :=
  BufferingWriter -> World -> outcome (A * BufferingWriter * World).

Definition ret {A : Type} (a : A) : M A :=
  fun bw w => Ret (a, bw, w).

Definition bind {A B : Type} (m : M A) (k : A -> M B) : M B :=
  fun bw w =>
    match m bw w with
    | Ret (a, bw', w') => k a bw' w'
    | Panic => Panic
    end.

Notation "x <- m ;; k" := (bind m (fun x => k))
  (at level 61, m at next level, right associativity).
Notation "m ;; k" := (bind m (fun _ => k))
  (at level 61, right associativity).

(** Read a field of the receiver. *)
Definition read {A : Type} (f : BufferingWriter -> A) : M A :=
  fun bw w => Ret (f bw, bw, w).

(** Assign to fields of the receiver. *)
Definition modify (f : BufferingWriter -> BufferingWriter) : M unit :=
  fun bw w => Ret (tt, f bw, w).

(** One call of the sink's [Write] on [p]: its result, and the world after
    it, with the call logged. *)
Definition emit (p : bytes) (w : World) : result * World :=
  let (r, s') := sink_write p (sink w) in
  (r, {| sink := s'; calls := calls w ++ [(p, r)] |}).

(** [bw.finalWriter.Write(p)]. *)
Definition finalWriter_Write (p : bytes) : M result :=
  fun bw w => let (r, w') := emit p w in Ret (r, bw, w').

(** [bw.buffer.Write(p)]: appends [p] and returns [(len(p), nil)]; a buffer
    cannot hold more than [max_int] bytes and panics with [ErrTooLarge]
    instead of growing past that. *)
Definition buffer_Write (p : bytes) : M result :=
  fun bw w =>
    if GoInt.max_int <? len (buffer bw) + len p then Panic
    else Ret ((len p, None), set_buffer (buffer bw ++ p) bw, w).

(** [bw.buffer.Len()]. *)
Definition buffer_Len : M Z := read (fun bw => len (buffer bw)).

(** [bw.buffer.Bytes()]. *)
Definition buffer_Bytes : M bytes := read buffer.

(** [bw.buffer.Reset()]. *)
Definition buffer_Reset : M unit := modify (set_buffer []).

(** *** The methods of writer.go *)

(** The [switch level] of [Write]. *)
Definition shouldFlushNow (cfg : Config) (level : Level) : bool :=
  match level with
  | ErrorLevel | FatalLevel | PanicLevel =>
      if FlushOnError cfg then true else false
  | WarnLevel =>
      if FlushOnWarn cfg then true else false
  | _ => false
  end.

Definition Write (p : bytes) : M result :=
  flushed <- read shouldFlush ;;
  if flushed then finalWriter_Write p
  else
    cfg <- read config ;;
    let level := parseLogLevel p in
    if shouldFlushNow cfg level then
      modify (set_shouldFlush true) ;;
      n <- buffer_Len ;;
      (if 0 <? n
       then b <- buffer_Bytes ;; finalWriter_Write b ;; buffer_Reset
       else ret tt) ;;
      finalWriter_Write p
    else
      size <- read bufferSize ;;
      if BufferSize cfg <? GoInt.add size (len p) then
        modify (set_shouldFlush true) ;;
        n <- buffer_Len ;;
        (if 0 <? n
         then b <- buffer_Bytes ;; finalWriter_Write b ;; buffer_Reset
         else ret tt) ;;
        finalWriter_Write p
      else
        r <- buffer_Write p ;;
        modify (fun bw => set_bufferSize (GoInt.add (bufferSize bw) (fst r)) bw) ;;
        ret r.

Definition Flush : M unit :=
  n <- buffer_Len ;;
  (if 0 <? n
   then b <- buffer_Bytes ;; finalWriter_Write b ;; buffer_Reset
   else ret tt) ;;
  modify (set_shouldFlush true).

Definition Finalize (success : bool) (rnd : float) : M unit :=
  flushed <- read shouldFlush ;;
  if flushed then ret tt
  else
    shouldSave <-
      (if negb success then ret true
       else read (fun bw => ShouldSaveOnSuccess bw rnd)) ;;
    n <- buffer_Len ;;
    (if shouldSave && (0 <? n)
     then b <- buffer_Bytes ;; finalWriter_Write b ;; ret tt
     else ret tt) ;;
    buffer_Reset.

(** *** Sequences of calls on one instance *)

Inductive op : Type :=
| OpWrite (p : bytes)
| OpFlush
| OpFinalize (success : bool) (rnd : float).

Definition step (o : op) : M unit :=
  match o with
  | OpWrite p => Write p ;; ret tt
  | OpFlush => Flush
  | OpFinalize success rnd => Finalize success rnd
  end.

Fixpoint run (ops : list op) : M unit :=
  match ops with
  | [] => ret tt
  | o :: rest => step o ;; run rest
  end.

(** The records passed to [Write] during a sequence of calls. *)
Fixpoint records (ops : list op) : list bytes :=
  match ops with
  | [] => []
  | OpWrite p :: rest => p :: records rest
  | _ :: rest => records rest
  end.

End Writer.

Arguments mkWorld {error W} sink calls.
Arguments sink {error W} w.
Arguments calls {error W} w.
Arguments sent {error W} w.
Arguments emit {error W} sink_write p w.
Arguments finalWriter_Write {error W} sink_write p bw w.
Arguments buffer_Write {error W} p bw w.
Arguments Write {error W} sink_write p bw w.
Arguments Flush {error W} sink_write bw w.
Arguments Finalize {error W} sink_write success rnd bw w.
Arguments step {error W} sink_write o bw w.
Arguments run {error W} sink_write ops bw w.

(** ** Vocabulary for the properties of the writer *)

(** The world once the buffer's contents, if any, have gone to the sink. *)
Definition flush_world {error W : Type}
    (sink_write : bytes -> W -> (Z * option error) * W)
    (bw : BufferingWriter) (w : World error W) : World error W :=
  match buffer bw with
  | [] => w
  | _ :: _ => snd (emit sink_write (buffer bw) w)
  end.

(** The receiver once it has entered pass-through mode. *)
Definition cleared (bw : BufferingWriter) : BufferingWriter :=
  set_buffer [] (set_shouldFlush true bw).

(** A flushed instance holds no buffered bytes. *)
Definition flushed_empty (bw : BufferingWriter) : Prop :=
  shouldFlush bw = true -> buffer bw = [].

(** While unflushed, the counter is the length of the buffer. *)
Definition size_exact (bw : BufferingWriter) : Prop :=
  shouldFlush bw = false -> bufferSize bw = len (buffer bw).

(** The same receiver with [config.BufferingEnabled] set to [b]. *)
Definition with_buffering (b : bool) (bw : BufferingWriter) : BufferingWriter :=
  {| buffer := buffer bw; shouldFlush := shouldFlush bw;
     config := {| SaveRate := SaveRate (config bw);
                  BufferingEnabled := b;
                  FlushOnError := FlushOnError (config bw);
                  FlushOnWarn := FlushOnWarn (config bw);
                  BufferSize := BufferSize (config bw) |};
     requestID := requestID bw; bufferSize := bufferSize bw |}.

(** No [Finalize] among the calls. *)
Definition no_finalize (ops : list op) : bool :=
  forallb (fun o => match o with OpFinalize _ _ => false | _ => true end) ops.

(** [l1] is [l2] with some elements left out, order kept. *)
Inductive subseq {A : Type} : list A -> list A -> Prop :=
| subseq_nil : subseq [] []
| subseq_skip (x : A) (l1 l2 : list A) : subseq l1 l2 -> subseq l1 (x :: l2)
| subseq_take (x : A) (l1 l2 : list A) :
    subseq l1 l2 -> subseq (x :: l1) (x :: l2).

(** Every byte in the sink or in the buffer comes from one record of
    [hist], each record used at most once and in order: [ks] went to the
    sink, [kb] wait in the buffer. *)
Definition accounted {error W : Type}
    (bw : BufferingWriter) (w : World error W) (hist : list bytes) : Prop :=
  exists ks kb,
    subseq (ks ++ kb) hist /\
    concat (sent w) = concat ks /\
    buffer bw = concat kb.

(** ** Sample sinks and records *)

(** A sink that accepts everything. *)
Definition ok_write (p : bytes) (s : unit) : (Z * option string) * unit :=
  ((len p, None), s).

(** A sink whose first call fails and whose later calls succeed; its state
    counts the calls made. *)
Definition flaky_write (p : bytes) (n : nat) : (Z * option string) * nat :=
  (if Nat.eqb n 0 then (0, Some "sink unavailable"%string) else (len p, None),
   S n).

(** A zerolog-shaped line [{"level":"<level>","message":"<msg>"}]. *)
Definition sample_record (level msg : string) : bytes :=
  lit "{" ++ level_marker level ++ lit "," ++
  [x22] ++ lit "message" ++ [x22; x3a; x22] ++ lit msg ++ [x22] ++ lit "}".

Definition empty_world {W : Type} (s : W) : World string W :=
  {| sink := s; calls := [] |}.

Definition info_A : bytes := sample_record "info" "A".
Definition debug_B : bytes := sample_record "debug" "B".
Definition error_C : bytes := sample_record "error" "C".

(** An unflushed instance holding [b], as [Write] leaves it after
    buffering [b] on a new instance. *)
Definition buffered (cfg : Config) (b : bytes) : BufferingWriter :=
  {| buffer := b; shouldFlush := false; config := cfg;
     requestID := "r1"; bufferSize := len b |}.

(** Buffering disabled, no overflow in sight. *)
Definition unbuffered_config : Config :=
  {| SaveRate := 100%float;
     BufferingEnabled := false;
     FlushOnError := true;
     FlushOnWarn := true;
     BufferSize := 64 * 1024 |}.

(** The scenario configuration: nothing is sampled on success. *)
Definition scenario_config : Config :=
  {| SaveRate := 0%float;
     BufferingEnabled := true;
     FlushOnError := true;
     FlushOnWarn := false;
     BufferSize := 1024 |}.

(** A ten-byte buffer with both severity triggers off. *)
Definition tiny_config : Config :=
  {| SaveRate := 0%float;
     BufferingEnabled := true;
     FlushOnError := false;
     FlushOnWarn := false;
     BufferSize := 10 |}.

(** ** The classifier as the specification words it *)

(** The fixed priority order of the markers. *)
Definition priority : list Level :=
  [TraceLevel; DebugLevel; InfoLevel; WarnLevel; ErrorLevel; FatalLevel;
   PanicLevel].

Definition level_name (l : Level) : string :=
  match l with
  | TraceLevel => "trace"
  | DebugLevel => "debug"
  | InfoLevel => "info"
  | WarnLevel => "warn"
  | ErrorLevel => "error"
  | FatalLevel => "fatal"
  | PanicLevel => "panic"
  end.

Definition marker (l : Level) : bytes := level_marker (level_name l).

(** [sub] occurs in [b] as a contiguous run of bytes. *)
Definition occurs (sub b : bytes) : Prop :=
  exists pre post, b = pre ++ sub ++ post.

(** First severity in priority order whose marker occurs, else info. *)
Definition classify_spec (data : bytes) : Level :=
  match find (fun l => Contains data (marker l)) priority with
  | Some l => l
  | None => InfoLevel
  end.

(** [l] is the first level of the priority order whose marker occurs. *)
Definition first_marked (data : bytes) (l : Level) : Prop :=
  exists before after,
    priority = before ++ l :: after /\
    occurs (marker l) data /\
    Forall (fun l' => ~ occurs (marker l') data) before.

(** No marker of the priority order occurs. *)
Definition unmarked (data : bytes) : Prop :=
  Forall (fun l' => ~ occurs (marker l') data) priority.

(** ** Further vocabulary for sequences of calls *)

(** No successful [Finalize] among the calls: nothing can be discarded. *)
Definition no_discard (ops : list op) : bool :=
  forallb (fun o => match o with OpFinalize true _ => false | _ => true end)
    ops.

(** A record that the buffer of [cfg] can take without its length leaving
    the range of [int]. *)
Definition fits (cfg : Config) (p : bytes) : Prop :=
  Z.max 0 (BufferSize cfg) + len p <= GoInt.max_int.

(** A record that triggers no severity flush under [cfg]. *)
Definition quiet (cfg : Config) (p : bytes) : bool :=
  negb (shouldFlushNow cfg (parseLogLevel p)).

(** The levels that come before warn in the priority order. *)
Definition low_levels : list Level := [TraceLevel; DebugLevel; InfoLevel].

(** The counter dominates the buffer and stays within the configured
    size. *)
Definition bounded (cfg : Config) (bw : BufferingWriter) : Prop :=
  config bw = cfg /\
  len (buffer bw) <= bufferSize bw /\
  bufferSize bw <= Z.max 0 (BufferSize cfg).

(** ** Loggers carried by a request context

    [context.Context] as a chain of key and value bindings over
    [context.Background()]; layers that only add cancellation or a deadline
    pass [Value] through to their parent and are left out. *)

(** A context key, an interface value: its dynamic type and its value both
    take part in [==]. *)
Inductive ctx_key : Type :=
| ContextKeyOf (s : string)
| ForeignKey (type_name : string) (repr : string).

(** [const LoggerKey ContextKey = "emitlog"]. *)
Definition LoggerKey : ctx_key := ContextKeyOf "emitlog".

Definition key_eqb (k1 k2 : ctx_key) : bool :=
  match k1, k2 with
  | ContextKeyOf s1, ContextKeyOf s2 => String.eqb s1 s2
  | ForeignKey t1 r1, ForeignKey t2 r2 => String.eqb t1 t2 && String.eqb r1 r2
  | _, _ => false
  end.

(** A [*zerolog.Logger]: nil, the address of the package-level
    [log.Logger], or the address of some other logger. *)
Inductive logger_ptr : Type :=
| NilLogger
| GlobalLogger
| LocalLogger (n : nat).

(** A value of type [any] as [GetLoggerFromContext] can tell them apart:
    the nil interface, a [*zerolog.Logger], or a value of another type. *)
Inductive any : Type :=
| AnyNil
| AnyLogger (p : logger_ptr)
| AnyOther (type_name : string).

Inductive Context : Type :=
| Background
| WithValue (parent : Context) (key : ctx_key) (val : any).

(** [ctx.Value(key)]: the innermost binding of [key], nil without one. *)
Fixpoint Value (ctx : Context) (key : ctx_key) : any :=
  match ctx with
  | Background => AnyNil
  | WithValue parent k v => if key_eqb k key then v else Value parent key
  end.

(** [GetLoggerFromContext]: the type assertion succeeds on any
    [*zerolog.Logger], a nil one included. *)
Definition GetLoggerFromContext (ctx : Context) : logger_ptr :=
  match Value ctx LoggerKey with
  | AnyLogger logger => logger
  | _ => GlobalLogger
  end.

(** [WithValue] for each binding of [bs] in turn, the last one innermost. *)
Definition with_values (ctx : Context) (bs : list (ctx_key * any)) : Context :=
  fold_left (fun c b => WithValue c (fst b) (snd b)) bs ctx.

(** The keys bound in a context, innermost first. *)
Fixpoint bound_keys (ctx : Context) : list ctx_key :=
  match ctx with
  | Background => []
  | WithValue parent k _ => k :: bound_keys parent
  end.

(** ** The request middleware (middleware.go) *)

(** [responseWriter]: the wrapped [http.ResponseWriter] is outside the
    model, [statusCode] is the field the middleware reads. *)
Record responseWriter : Type := mkResponseWriter {
  statusCode : Z
}.

(** [(rw *responseWriter).WriteHeader(code)]. *)
Definition WriteHeader (code : Z) (rw : responseWriter) : responseWriter :=
  {| statusCode := code |}.

(** [(rw *responseWriter).Write(b)] passes [b] on and records nothing. *)
Definition responseWriter_Write (b : bytes) (rw : responseWriter)
  : responseWriter := rw.

(** What [next.ServeHTTP] does that the middleware can observe: events
    logged through the logger of the request context, each arriving as one
    serialised line, calls on the wrapped response writer, and whether it
    ends in a panic. *)
Inductive haction : Type :=
| HLog (line : bytes)
| HWriteHeader (code : Z)
| HWriteBody (b : bytes).

Record Handler : Type := mkHandler {
  h_actions : list haction;
  h_panics : bool
}.

(** The lines a handler logs, in order. *)
Fixpoint handler_lines (actions : list haction) : list bytes :=
  match actions with
  | [] => []
  | HLog line :: rest => line :: handler_lines rest
  | _ :: rest => handler_lines rest
  end.

(** The status code left in the wrapper by the handler's calls. *)
Fixpoint final_status (code : Z) (actions : list haction) : Z :=
  match actions with
  | [] => code
  | HWriteHeader c :: rest => final_status c rest
  | _ :: rest => final_status code rest
  end.

(** How [Middleware] leaves: by returning, or by re-raising the handler's
    panic. *)
Inductive ending : Type :=
| Returned
| Repanicked.

Definition obind {A B : Type} (m : outcome A) (k : A -> outcome B)
  : outcome B :=
  match m with
  | Ret a => k a
  | Panic => Panic
  end.

Section Middleware.

Variable error : Type.
Variable W : Type.
Variable sink_write : bytes -> W -> (Z * option error) * W.

(** The serialised lines of the middleware's own three events, taken to
    pass the logger's level filter: request started (info), request
    panicked (error), request completed (info, with the status code and the
    success flag among its fields). *)
Variable started_line : bytes.
Variable panicked_line : bytes.
Variable completed_line : Z -> bool -> bytes.

(** One request in flight: the buffering writer if one was created, the
    world behind [globalWriter], the lines received by the output of the
    process-wide logger, and the response wrapper. *)
Record Request : Type := mkRequest {
  bufferingWriter : option BufferingWriter;
  globalWriter : World error W;
  global_logger_out : list bytes;
  wrappedWriter : responseWriter
}.

(** An enabled event of [logger]: one [Write] of its line on the logger's
    output, which is the buffering writer after [logger.Output], the
    process-wide logger's own output otherwise; zerolog drops the result. *)
Definition log_event (line : bytes) (rq : Request) : outcome Request :=
  match bufferingWriter rq with
  | Some bw =>
      obind (Write sink_write line bw (globalWriter rq))
        (fun '(_, bw', w') =>
           Ret {| bufferingWriter := Some bw'; globalWriter := w';
                  global_logger_out := global_logger_out rq;
                  wrappedWriter := wrappedWriter rq |})
  | None =>
      Ret {| bufferingWriter := None; globalWriter := globalWriter rq;
             global_logger_out := global_logger_out rq ++ [line];
             wrappedWriter := wrappedWriter rq |}
  end.

Definition set_wrappedWriter (rw : responseWriter) (rq : Request) : Request :=
  {| bufferingWriter := bufferingWriter rq; globalWriter := globalWriter rq;
     global_logger_out := global_logger_out rq; wrappedWriter := rw |}.

(** [next.ServeHTTP(wrappedWriter, r)] up to its return or panic. *)
Fixpoint ServeHTTP (actions : list haction) (rq : Request) : outcome Request :=
  match actions with
  | [] => Ret rq
  | HLog line :: rest => obind (log_event line rq) (ServeHTTP rest)
  | HWriteHeader code :: rest =>
      ServeHTTP rest (set_wrappedWriter (WriteHeader code (wrappedWriter rq)) rq)
  | HWriteBody b :: rest =>
      ServeHTTP rest
        (set_wrappedWriter (responseWriter_Write b (wrappedWriter rq)) rq)
  end.

(** [bufferingWriter.Flush()] under [if bufferingWriter != nil]. *)
Definition flush_if_buffering (rq : Request) : outcome Request :=
  match bufferingWriter rq with
  | Some bw =>
      obind (Flush sink_write bw (globalWriter rq))
        (fun '(_, bw', w') =>
           Ret {| bufferingWriter := Some bw'; globalWriter := w';
                  global_logger_out := global_logger_out rq;
                  wrappedWriter := wrappedWriter rq |})
  | None => Ret rq
  end.

(** [bufferingWriter.Finalize(success)] under [if bufferingWriter != nil]. *)
Definition finalize_if_buffering (success : bool) (rnd : float) (rq : Request)
  : outcome Request :=
  match bufferingWriter rq with
  | Some bw =>
      obind (Finalize sink_write success rnd bw (globalWriter rq))
        (fun '(_, bw', w') =>
           Ret {| bufferingWriter := Some bw'; globalWriter := w';
                  global_logger_out := global_logger_out rq;
                  wrappedWriter := wrappedWriter rq |})
  | None => Ret rq
  end.

(** The handler returned by [Middleware(config, globalWriter)(next)], on
    one request: [id] is the fresh request identifier, [rnd] the draw
    [Finalize] may use, [w0] the world behind [globalWriter].  A panic of
    the handler is recovered, logged, flushed, answered with status 500
    through the wrapper, and raised again; [Panic] stands for a request cut
    short by [bytes.ErrTooLarge] inside a log call, which is not followed
    further. *)
Definition Middleware (cfg : Config) (id : string) (rnd : float)
    (next : Handler) (w0 : World error W) : outcome (ending * Request) :=
  let rq0 :=
    {| bufferingWriter :=
         if BufferingEnabled cfg then Some (NewBufferingWriter cfg id)
         else None;
       globalWriter := w0;
       global_logger_out := [];
       wrappedWriter := {| statusCode := 200 |} |} in
  obind (log_event started_line rq0) (fun rq1 =>
  obind (ServeHTTP (h_actions next) rq1) (fun rq2 =>
  if h_panics next then
    obind (log_event panicked_line rq2) (fun rq3 =>
    obind (flush_if_buffering rq3) (fun rq4 =>
    Ret (Repanicked,
         set_wrappedWriter (WriteHeader 500 (wrappedWriter rq4)) rq4)))
  else
    let success := negb (400 <=? statusCode (wrappedWriter rq2)) in
    obind (log_event
             (completed_line (statusCode (wrappedWriter rq2)) success) rq2)
      (fun rq3 =>
    obind (finalize_if_buffering success rnd rq3) (fun rq4 =>
    Ret (Returned, rq4))))).

End Middleware.

Arguments mkRequest {error W} bufferingWriter globalWriter global_logger_out
  wrappedWriter.
Arguments bufferingWriter {error W} r.
Arguments globalWriter {error W} r.
Arguments global_logger_out {error W} r.
Arguments wrappedWriter {error W} r.
Arguments log_event {error W} sink_write line rq.
Arguments set_wrappedWriter {error W} rw rq.
Arguments ServeHTTP {error W} sink_write actions rq.
Arguments flush_if_buffering {error W} sink_write rq.
Arguments finalize_if_buffering {error W} sink_write success rnd rq.
Arguments Middleware {error W} sink_write started_line panicked_line
  completed_line cfg id rnd next w0.

(** The lines one request logs through the middleware's logger, in order. *)
Definition request_lines (started_line panicked_line : bytes)
    (completed_line : Z -> bool -> bytes) (next : Handler) : list bytes :=
  started_line :: handler_lines (h_actions next) ++
  [if h_panics next then panicked_line
   else completed_line (final_status 200 (h_actions next))
          (negb (400 <=? final_status 200 (h_actions next)))].

(** ** More sample configurations, lines and handlers *)

(** Buffering on, everything saved. *)
Definition full_config : Config :=
  {| SaveRate := 100%float;
     BufferingEnabled := true;
     FlushOnError := true;
     FlushOnWarn := false;
     BufferSize := 1024 |}.

(** A save rate that is not a number. *)
Definition nan_config : Config :=
  {| SaveRate := nan;
     BufferingEnabled := true;
     FlushOnError := true;
     FlushOnWarn := false;
     BufferSize := 1024 |}.

(** A buffer of no bytes. *)
Definition zero_config : Config :=
  {| SaveRate := 0%float;
     BufferingEnabled := true;
     FlushOnError := false;
     FlushOnWarn := false;
     BufferSize := 0 |}.

Definition sample_started : bytes := sample_record "info" "Request started".
Definition sample_panicked : bytes := sample_record "error" "Request panicked".
Definition sample_completed (status : Z) (success : bool) : bytes :=
  if success then sample_record "info" "Request completed"
  else sample_record "info" "Request completed with an error status".

(** A handler that logs a debug line and answers 500. *)
Definition failing_handler : Handler :=
  {| h_actions := [HLog debug_B; HWriteHeader 500; HWriteBody (lit "oops")];
     h_panics := false |}.

(** A handler that logs a debug line and panics. *)
Definition panicking_handler : Handler :=
  {| h_actions := [HLog debug_B]; h_panics := true |}.

(** A handler that logs a debug line and answers 204. *)
Definition quiet_handler : Handler :=
  {| h_actions := [HLog debug_B; HWriteHeader 204]; h_panics := false |}.

(** The world after the sink [ok_write] took the payloads [ps] on top of
    an empty log. *)
Definition ok_world (ps : list bytes) : World string unit :=
  {| sink := tt; calls := map (fun p => (p, (len p, None))) ps |}.

(** ** Facts about [bytes.HasPrefix] and [bytes.Contains] *)

Lemma HasPrefix_spec (prefix s : bytes) :
  HasPrefix s prefix = true <-> exists post, s = prefix ++ post.
Proof.
  revert s. induction prefix as [|x prefix IH]; intros s; simpl.
  - split; [intros _; now exists s | reflexivity].
  - destruct s as [|y s].
    + split; [discriminate | intros [post H]; discriminate].
    + rewrite andb_true_iff, IH. split.
      * intros [Hxy [post ->]].
        apply Byte.byte_dec_bl in Hxy. subst y.
        now exists post.
      * intros [post H]. injection H as -> ->.
        split; [now apply Byte.byte_dec_lb | now exists post].
Qed.

Lemma Contains_spec (sub b : bytes) :
  Contains b sub = true <-> occurs sub b.
Proof.
  unfold occurs. induction b as [|y b IH].
  - simpl. rewrite orb_false_r, HasPrefix_spec. split.
    + intros [post H]. now exists [], post.
    + intros [pre [post H]].
      destruct pre; [now exists post|discriminate].
  - change (Contains (y :: b) sub)
      with (HasPrefix (y :: b) sub || Contains b sub).
    rewrite orb_true_iff, HasPrefix_spec, IH. split.
    + intros [[post H] | [pre [post H]]].
      * now exists [], post.
      * exists (y :: pre), post. simpl. now rewrite H.
    + intros [[|z pre] [post H]].
      * left. now exists post.
      * right. simpl in H. injection H as _ H. now exists pre, post.
Qed.

Lemma Contains_false (sub b : bytes) :
  Contains b sub = false <-> ~ occurs sub b.
Proof.
  rewrite <- Contains_spec. destruct (Contains b sub); split; congruence.
Qed.

(** ** Facts about [find] on the priority list *)

Lemma find_some_first {A : Type} (f : A -> bool) (l : list A) (x : A) :
  find f l = Some x <->
  exists before after,
    l = before ++ x :: after /\ f x = true /\
    Forall (fun y => f y = false) before.
Proof.
  induction l as [|a l IH]; simpl.
  - split; [discriminate|]. intros [[|? ?] [after [H _]]]; discriminate.
  - destruct (f a) eqn:Ha.
    + split.
      * intros [= ->]. exists [], l. auto.
      * intros [[|b before] [after [H [Hx Hall]]]].
        -- simpl in H. congruence.
        -- simpl in H. injection H as -> _. inversion Hall; congruence.
    + rewrite IH. split.
      * intros [before [after [-> [Hx Hall]]]].
        exists (a :: before), after. auto.
      * intros [[|b before] [after [H [Hx Hall]]]].
        -- simpl in H. injection H as -> _. congruence.
        -- simpl in H. injection H as -> ->. inversion Hall; subst.
           now exists before, after.
Qed.

Lemma find_none_all {A : Type} (f : A -> bool) (l : list A) :
  find f l = None <-> Forall (fun y => f y = false) l.
Proof.
  induction l as [|a l IH]; simpl.
  - split; auto.
  - destruct (f a) eqn:Ha.
    + split; [discriminate|]. inversion 1; congruence.
    + rewrite IH. split; [auto|]. now inversion 1.
Qed.

Lemma Forall_Contains_false (data : bytes) (l : list Level) :
  Forall (fun y => Contains data (marker y) = false) l <->
  Forall (fun l' => ~ occurs (marker l') data) l.
Proof.
  rewrite !Forall_forall.
  split; intros H x Hx; apply Contains_false, H, Hx.
Qed.

Lemma parseLogLevel_classify (data : bytes) :
  parseLogLevel data = classify_spec data.
Proof.
  unfold parseLogLevel, classify_spec, priority, marker, find, level_name.
  repeat match goal with
         | |- context [Contains data ?m] => destruct (Contains data m)
         end; reflexivity.
Qed.

(** C8: for every byte sequence, [parseLogLevel] returns the first
    severity, in the fixed order trace, debug, info, warn, error, fatal,
    panic, whose marker ["level":"<name>"] occurs in the record, and info
    when no marker occurs. *)
Theorem parseLogLevel_first_match (data : bytes) (l : Level) :
  parseLogLevel data = l <->
  first_marked data l \/ (unmarked data /\ l = InfoLevel).
Proof.
  rewrite parseLogLevel_classify. unfold classify_spec, first_marked, unmarked.
  destruct (find (fun l0 => Contains data (marker l0)) priority) as [l0|] eqn:F.
  - split.
    + intros <-. left. apply find_some_first in F.
      destruct F as [before [after [Hp [Hx Hall]]]].
      exists before, after. split; [exact Hp|]. split.
      * now apply Contains_spec.
      * now apply Forall_Contains_false.
    + intros [[before [after [Hp [Hx Hall]]]] | [Hall _]].
      * assert (F' : find (fun l0 => Contains data (marker l0)) priority
                     = Some l).
        { apply find_some_first. exists before, after.
          split; [exact Hp|]. split.
          - now apply Contains_spec.
          - now apply Forall_Contains_false. }
        congruence.
      * apply Forall_Contains_false, find_none_all in Hall. congruence.
  - split.
    + intros <-. right. split; [|reflexivity].
      now apply Forall_Contains_false, find_none_all.
    + intros [[before [after [Hp [Hx Hall]]]] | [_ ->]]; [|reflexivity].
      assert (F' : find (fun l0 => Contains data (marker l0)) priority
                   = Some l).
      { apply find_some_first. exists before, after.
        split; [exact Hp|]. split.
        - now apply Contains_spec.
        - now apply Forall_Contains_false. }
      congruence.
Qed.

(** ** Facts about [float64] comparisons *)

Lemma SFcompare_antisym (x y : spec_float) (c : comparison) :
  SFcompare x y = Some c -> SFcompare y x = Some (CompOpp c).
Proof.
  destruct x as [sx|sx| |sx mx ex], y as [sy|sy| |sy my ey]; simpl;
    try discriminate;
    try (intros [= <-];
         repeat match goal with
                | |- context [if ?b then _ else _] => destruct b
                end; reflexivity).
  intros [= <-]. f_equal. destruct sx, sy; simpl; try reflexivity.
  - rewrite (Z.compare_antisym ex ey).
    destruct (ex ?= ey)%Z; simpl; try reflexivity.
    now rewrite Pos.compare_cont_antisym, CompOpp_involutive.
  - rewrite (Z.compare_antisym ex ey).
    destruct (ex ?= ey)%Z; simpl; try reflexivity.
    now rewrite Pos.compare_cont_antisym.
Qed.

(** [x < y] excludes [y <= x]. *)
Lemma ltb_not_leb (x y : float) :
  (x <? y)%float = true -> (y <=? x)%float = false.
Proof.
  rewrite ltb_spec, leb_spec. unfold SFltb, SFleb.
  destruct (SFcompare (Prim2SF x) (Prim2SF y)) as [c|] eqn:E; [|discriminate].
  rewrite (SFcompare_antisym _ _ _ E). destruct c; simpl; congruence.
Qed.

(** [100 <= x] excludes [x <= 0]. *)
Lemma leb_100_not_leb_0 (x : float) :
  (100 <=? x)%float = true -> (x <=? 0)%float = false.
Proof.
  rewrite !leb_spec. unfold SFleb.
  change (Prim2SF 100) with (S754_finite false 7036874417766400 (-46)).
  change (Prim2SF 0) with (S754_zero false).
  destruct (Prim2SF x) as [s|s| |s m e]; simpl; try congruence;
    destruct s; congruence.
Qed.

(** The largest value [rand.Float64()] can return, [1 - 2^-53], still
    gives a draw below 100. *)
Example largest_draw_below_100 :
  (0x1.fffffffffffffp-1 * 100 <? 100)%float = true.
Proof. reflexivity. Qed.

(** C7: [ShouldSaveOnSuccess] is true whenever [BufferingEnabled] is false;
    otherwise it is false for [SaveRate <= 0], true for [SaveRate >= 100],
    and for [SaveRate] strictly between 0 and 100 it is whether the draw
    [rand.Float64() * 100] is less than [SaveRate]. *)
Theorem ShouldSaveOnSuccess_cases (bw : BufferingWriter) (rnd : float) :
  (BufferingEnabled (config bw) = false ->
   ShouldSaveOnSuccess bw rnd = true) /\
  (BufferingEnabled (config bw) = true ->
   ((SaveRate (config bw) <=? 0)%float = true ->
    ShouldSaveOnSuccess bw rnd = false) /\
   ((100 <=? SaveRate (config bw))%float = true ->
    ShouldSaveOnSuccess bw rnd = true) /\
   ((0 <? SaveRate (config bw))%float = true ->
    (SaveRate (config bw) <? 100)%float = true ->
    ShouldSaveOnSuccess bw rnd = (rnd * 100 <? SaveRate (config bw))%float)).
Proof.
  unfold ShouldSaveOnSuccess. split.
  - intros ->. reflexivity.
  - intros ->. simpl. repeat split.
    + intros ->. reflexivity.
    + intros H. rewrite (leb_100_not_leb_0 _ H), H. reflexivity.
    + intros H0 H100.
      now rewrite (ltb_not_leb _ _ H0), (ltb_not_leb _ _ H100).
Qed.

(** C7 at the default configuration (5 percent) and the draw 0.03125. *)
Lemma ShouldSaveOnSuccess_cases_witness :
  ((0 <? 5)%float = true /\ (5 <? 100)%float = true) /\
  ShouldSaveOnSuccess (NewBufferingWriter DefaultConfig "r1") 0.03125%float
  = (0.03125 * 100 <? 5)%float.
Proof.
  split; [split; reflexivity|].
  apply (ShouldSaveOnSuccess_cases
           (NewBufferingWriter DefaultConfig "r1") 0.03125%float);
    reflexivity.
Defined.

(** ** Facts about [int] and [len] *)

Lemma wrap_in_range (z : Z) : GoInt.in_range z -> GoInt.wrap z = z.
Proof.
  unfold GoInt.in_range, GoInt.min_int, GoInt.max_int, GoInt.wrap.
  intros H. rewrite Z.mod_small; lia.
Qed.

Lemma len_nonneg (b : bytes) : 0 <= len b.
Proof. unfold len. lia. Qed.

Lemma len_app (a b : bytes) : len (a ++ b) = len a + len b.
Proof. unfold len. rewrite length_app. lia. Qed.

Lemma len_pos_cons (x : byte) (b : bytes) : (0 <? len (x :: b)) = true.
Proof. apply Z.ltb_lt. unfold len. simpl length. lia. Qed.

(** ** Facts about [subseq] *)

Lemma subseq_nil_l {A : Type} (l : list A) : subseq [] l.
Proof. induction l; constructor; assumption. Qed.

Lemma subseq_refl {A : Type} (l : list A) : subseq l l.
Proof. induction l; constructor; assumption. Qed.

Lemma subseq_app {A : Type} (a b c d : list A) :
  subseq a b -> subseq c d -> subseq (a ++ c) (b ++ d).
Proof.
  intros Hab Hcd. induction Hab; simpl.
  - exact Hcd.
  - now apply subseq_skip.
  - now apply subseq_take.
Qed.

Lemma subseq_app_drop_r {A : Type} (a b l : list A) :
  subseq (a ++ b) l -> subseq a l.
Proof.
  intros H. remember (a ++ b) as m eqn:Em. revert a b Em.
  induction H as [|x l1 l2 H IH|x l1 l2 H IH]; intros a b Em.
  - destruct a; [constructor|discriminate].
  - apply subseq_skip. now apply (IH a b).
  - destruct a as [|y a].
    + apply subseq_nil_l.
    + simpl in Em. injection Em as -> ->. apply subseq_take.
      now apply (IH a b).
Qed.

Section Properties.

Context {error W : Type}.
Variable fw : bytes -> W -> (Z * option error) * W.

Implicit Types (bw : BufferingWriter) (w : World error W) (p : bytes).

(** *** What one downstream call does to the log *)

Lemma emit_calls p w :
  calls (snd (emit fw p w)) = calls w ++ [(p, fst (emit fw p w))].
Proof. unfold emit. destruct (fw p (sink w)). reflexivity. Qed.

Lemma emit_sent p w : sent (snd (emit fw p w)) = sent w ++ [p].
Proof.
  unfold sent. rewrite emit_calls, map_app. reflexivity.
Qed.

Lemma flush_world_sent bw w :
  sent (flush_world fw bw w) =
  sent w ++ match buffer bw with [] => [] | _ :: _ => [buffer bw] end.
Proof.
  unfold flush_world. destruct (buffer bw).
  - now rewrite app_nil_r.
  - apply emit_sent.
Qed.

Lemma flush_world_concat bw w :
  concat (sent (flush_world fw bw w)) = concat (sent w) ++ buffer bw.
Proof.
  rewrite flush_world_sent, concat_app. destruct (buffer bw); simpl.
  - reflexivity.
  - now rewrite app_nil_r.
Qed.

(** *** The paths of [Write], [Flush] and [Finalize] as equations *)

Ltac run_m :=
  unfold Write, Flush, Finalize, bind, read, modify, ret, buffer_Len,
    buffer_Bytes, buffer_Reset, buffer_Write, finalWriter_Write; simpl.

Lemma Write_passthrough p bw w :
  shouldFlush bw = true ->
  Write fw p bw w = Ret (fst (emit fw p w), bw, snd (emit fw p w)).
Proof.
  intros H. run_m. rewrite H. now destruct (emit fw p w).
Qed.

(** The flush-then-write sequence of the forced and the overflow path. *)
Ltac flush_path buf p w :=
  unfold flush_world, cleared; simpl;
  destruct buf as [|x buf];
  [ simpl; now destruct (emit fw p w)
  | rewrite len_pos_cons; simpl;
    destruct (emit fw (x :: buf) w) as [r0 w0]; simpl;
    now destruct (emit fw p w0) ].

Lemma Write_forced p bw w :
  shouldFlush bw = false ->
  shouldFlushNow (config bw) (parseLogLevel p) = true ->
  Write fw p bw w
  = Ret (fst (emit fw p (flush_world fw bw w)), cleared bw,
         snd (emit fw p (flush_world fw bw w))).
Proof.
  destruct bw as [buf fl cfg id sz]. simpl. intros -> Hnow.
  run_m. rewrite Hnow. flush_path buf p w.
Qed.

Lemma Write_overflow p bw w :
  shouldFlush bw = false ->
  shouldFlushNow (config bw) (parseLogLevel p) = false ->
  (BufferSize (config bw) <? GoInt.add (bufferSize bw) (len p)) = true ->
  Write fw p bw w
  = Ret (fst (emit fw p (flush_world fw bw w)), cleared bw,
         snd (emit fw p (flush_world fw bw w))).
Proof.
  destruct bw as [buf fl cfg id sz]. simpl. intros -> Hnow Hover.
  run_m. rewrite Hnow. simpl. rewrite Hover. flush_path buf p w.
Qed.

Lemma Write_append p bw w :
  shouldFlush bw = false ->
  shouldFlushNow (config bw) (parseLogLevel p) = false ->
  (BufferSize (config bw) <? GoInt.add (bufferSize bw) (len p)) = false ->
  (GoInt.max_int <? len (buffer bw) + len p) = false ->
  Write fw p bw w
  = Ret ((len p, None),
         set_bufferSize (GoInt.add (bufferSize bw) (len p))
           (set_buffer (buffer bw ++ p) bw),
         w).
Proof.
  destruct bw as [buf fl cfg id sz]. simpl. intros -> Hnow Hover Hfit.
  run_m. rewrite Hnow. simpl. rewrite Hover. simpl. rewrite Hfit. reflexivity.
Qed.

Lemma Write_too_large p bw w :
  shouldFlush bw = false ->
  shouldFlushNow (config bw) (parseLogLevel p) = false ->
  (BufferSize (config bw) <? GoInt.add (bufferSize bw) (len p)) = false ->
  (GoInt.max_int <? len (buffer bw) + len p) = true ->
  Write fw p bw w = Panic.
Proof.
  destruct bw as [buf fl cfg id sz]. simpl. intros -> Hnow Hover Hfit.
  run_m. rewrite Hnow. simpl. rewrite Hover. simpl. rewrite Hfit. reflexivity.
Qed.

Lemma Flush_eq bw w :
  Flush fw bw w = Ret (tt, cleared bw, flush_world fw bw w).
Proof.
  destruct bw as [buf fl cfg id sz]. run_m.
  unfold flush_world, cleared. simpl. destruct buf as [|x buf].
  - reflexivity.
  - rewrite len_pos_cons. simpl. now destruct (emit fw (x :: buf) w).
Qed.

Lemma Finalize_flushed success rnd bw w :
  shouldFlush bw = true -> Finalize fw success rnd bw w = Ret (tt, bw, w).
Proof. intros H. run_m. now rewrite H. Qed.

Lemma Finalize_unflushed success rnd bw w :
  shouldFlush bw = false ->
  Finalize fw success rnd bw w
  = Ret (tt, set_buffer [] bw,
         if negb success || ShouldSaveOnSuccess bw rnd
         then flush_world fw bw w else w).
Proof.
  destruct bw as [buf fl cfg id sz]. simpl. intros ->. run_m.
  unfold flush_world. simpl.
  destruct success; simpl.
  - destruct (ShouldSaveOnSuccess _ rnd); simpl; [|reflexivity].
    destruct buf as [|x buf]; [reflexivity|].
    rewrite len_pos_cons. simpl. now destruct (emit fw (x :: buf) w).
  - destruct buf as [|x buf]; [reflexivity|].
    rewrite len_pos_cons. simpl. now destruct (emit fw (x :: buf) w).
Qed.

(** Every call of [Write] takes one of four paths. *)
Lemma Write_cases p bw w :
  (shouldFlush bw = true /\
   Write fw p bw w = Ret (fst (emit fw p w), bw, snd (emit fw p w))) \/
  (shouldFlush bw = false /\
   Write fw p bw w
   = Ret (fst (emit fw p (flush_world fw bw w)), cleared bw,
          snd (emit fw p (flush_world fw bw w)))) \/
  (shouldFlush bw = false /\
   (BufferSize (config bw) <? GoInt.add (bufferSize bw) (len p)) = false /\
   (GoInt.max_int <? len (buffer bw) + len p) = false /\
   Write fw p bw w
   = Ret ((len p, None),
          set_bufferSize (GoInt.add (bufferSize bw) (len p))
            (set_buffer (buffer bw ++ p) bw),
          w)) \/
  (shouldFlush bw = false /\ Write fw p bw w = Panic).
Proof.
  destruct (shouldFlush bw) eqn:Hf.
  - left. split; [reflexivity|]. now apply Write_passthrough.
  - right.
    destruct (shouldFlushNow (config bw) (parseLogLevel p)) eqn:Hnow.
    { left. split; [reflexivity|]. now apply Write_forced. }
    destruct (BufferSize (config bw) <? GoInt.add (bufferSize bw) (len p))
      eqn:Hover.
    { left. split; [reflexivity|]. now apply Write_overflow. }
    destruct (GoInt.max_int <? len (buffer bw) + len p) eqn:Hfit.
    + right. right. split; [reflexivity|]. now apply Write_too_large.
    + right. left. repeat split. now apply Write_append.
Qed.

Lemma cleared_frozen bw :
  shouldFlush bw = true -> buffer bw = [] -> cleared bw = bw.
Proof.
  destruct bw as [buf fl cfg id sz]. simpl. intros -> ->. reflexivity.
Qed.

Lemma flush_world_empty bw w : buffer bw = [] -> flush_world fw bw w = w.
Proof. unfold flush_world. now intros ->. Qed.

(** *** The invariant "flushed implies empty buffer" *)

Lemma New_flushed_empty (cfg : Config) (id : string) :
  flushed_empty (NewBufferingWriter cfg id).
Proof. unfold flushed_empty. simpl. discriminate. Qed.

Lemma step_flushed_empty (o : op) bw w bw' w' :
  flushed_empty bw ->
  step fw o bw w = Ret (tt, bw', w') ->
  flushed_empty bw'.
Proof.
  unfold flushed_empty. intros Inv Hstep.
  destruct o as [p| |success rnd]; simpl in Hstep.
  - unfold bind, ret in Hstep.
    destruct (Write_cases p bw w)
      as [[Hf E]|[[Hf E]|[[Hf [_ [_ E]]]|[Hf E]]]];
      rewrite E in Hstep; try discriminate;
      injection Hstep as <- <-; simpl; auto; congruence.
  - rewrite Flush_eq in Hstep. injection Hstep as <- <-. reflexivity.
  - destruct (shouldFlush bw) eqn:Hf.
    + rewrite Finalize_flushed in Hstep by assumption.
      injection Hstep as <- <-. auto.
    + rewrite Finalize_unflushed in Hstep by assumption.
      injection Hstep as <- <-. reflexivity.
Qed.

(** *** Every byte is accounted for, once *)

Lemma step_accounted (o : op) bw w bw' w' (hist : list bytes) :
  flushed_empty bw ->
  accounted bw w hist ->
  step fw o bw w = Ret (tt, bw', w') ->
  accounted bw' w' (hist ++ records [o]).
Proof.
  unfold accounted. intros Inv [ks [kb [Hsub [Hsent Hbuf]]]] Hstep.
  destruct o as [p| |success rnd]; simpl in Hstep; simpl records.
  - unfold bind, ret in Hstep.
    destruct (Write_cases p bw w)
      as [[Hf E]|[[Hf E]|[[Hf [_ [_ E]]]|[Hf E]]]];
      rewrite E in Hstep; try discriminate;
      injection Hstep as <- <-.
    + (* pass-through: the buffer is empty, the record goes out *)
      specialize (Inv Hf). rewrite Inv in Hbuf.
      exists (ks ++ kb ++ [p]), []. rewrite app_nil_r, emit_sent. simpl.
      split; [|split].
      * rewrite app_assoc. apply subseq_app; [exact Hsub|apply subseq_refl].
      * rewrite !concat_app, <- Hsent, <- Hbuf. simpl. now rewrite app_nil_r.
      * exact Inv.
    + (* flush: the buffer goes out, then the record *)
      exists (ks ++ kb ++ [p]), []. rewrite app_nil_r, emit_sent. simpl.
      split; [|split].
      * rewrite app_assoc. apply subseq_app; [exact Hsub|apply subseq_refl].
      * rewrite !concat_app, flush_world_concat, <- Hsent, <- Hbuf. simpl.
        now rewrite app_nil_r, app_assoc.
      * reflexivity.
    + (* append: the record joins the buffer *)
      exists ks, (kb ++ [p]). simpl. split; [|split].
      * rewrite app_assoc. apply subseq_app; [exact Hsub|apply subseq_refl].
      * exact Hsent.
      * rewrite concat_app, <- Hbuf. simpl. now rewrite app_nil_r.
  - rewrite Flush_eq in Hstep. injection Hstep as <- <-.
    exists (ks ++ kb), []. rewrite !app_nil_r. simpl. split; [|split].
    + exact Hsub.
    + now rewrite flush_world_concat, concat_app, <- Hsent, <- Hbuf.
    + reflexivity.
  - rewrite app_nil_r. destruct (shouldFlush bw) eqn:Hf.
    + rewrite Finalize_flushed in Hstep by assumption.
      injection Hstep as <- <-. now exists ks, kb.
    + rewrite Finalize_unflushed in Hstep by assumption.
      injection Hstep as <- <-.
      destruct (negb success || ShouldSaveOnSuccess bw rnd).
      * exists (ks ++ kb), []. rewrite !app_nil_r. simpl. split; [|split].
        -- exact Hsub.
        -- now rewrite flush_world_concat, concat_app, <- Hsent, <- Hbuf.
        -- reflexivity.
      * exists ks, []. rewrite app_nil_r. simpl. split; [|split].
        -- now apply subseq_app_drop_r with (b := kb).
        -- exact Hsent.
        -- reflexivity.
Qed.

Lemma records_app (ops1 ops2 : list op) :
  records (ops1 ++ ops2) = records ops1 ++ records ops2.
Proof.
  induction ops1 as [|[p| |s r] ops1 IH]; simpl; congruence.
Qed.

Lemma run_cons (o : op) (ops : list op) bw w :
  run fw (o :: ops) bw w =
  match step fw o bw w with
  | Ret (_, bw1, w1) => run fw ops bw1 w1
  | Panic => Panic
  end.
Proof. reflexivity. Qed.

Lemma run_accounted (ops : list op) bw w bw' w' (hist : list bytes) :
  flushed_empty bw ->
  accounted bw w hist ->
  run fw ops bw w = Ret (tt, bw', w') ->
  flushed_empty bw' /\ accounted bw' w' (hist ++ records ops).
Proof.
  revert bw w hist. induction ops as [|o ops IH]; intros bw w hist Inv Acc Hrun.
  - injection Hrun as <- <-. simpl. rewrite app_nil_r. auto.
  - rewrite run_cons in Hrun.
    destruct (step fw o bw w) as [[[[] bw1] w1]|] eqn:Hstep; [|discriminate].
    change (o :: ops) with ([o] ++ ops).
    rewrite records_app, app_assoc.
    apply (IH bw1 w1).
    + eapply step_flushed_empty; eassumption.
    + eapply step_accounted; eassumption.
    + exact Hrun.
Qed.

(** C9: whenever [shouldFlush] is true the buffer is empty: this holds of a
    new instance and is preserved by [Write], [Flush] and [Finalize]; so
    after any sequence of calls the bytes received by the sink are those of
    a subsequence of the records written, each used at most once and in
    order, and the buffer holds later records that were not sent. *)
Theorem flushed_empty_no_duplicates :
  (forall (cfg : Config) (id : string),
      flushed_empty (NewBufferingWriter cfg id)) /\
  (forall (o : op) bw w bw' w',
      flushed_empty bw ->
      step fw o bw w = Ret (tt, bw', w') ->
      flushed_empty bw') /\
  (forall (cfg : Config) (id : string) (ops : list op) w0 bw w,
      calls w0 = [] ->
      run fw ops (NewBufferingWriter cfg id) w0 = Ret (tt, bw, w) ->
      flushed_empty bw /\ accounted bw w (records ops)).
Proof.
  split; [exact New_flushed_empty|]. split; [exact step_flushed_empty|].
  intros cfg id ops w0 bw w Hw0 Hrun.
  apply (run_accounted ops (NewBufferingWriter cfg id) w0 bw w []).
  - apply New_flushed_empty.
  - exists [], []. unfold sent. rewrite Hw0. simpl.
    repeat split. apply subseq_nil.
  - exact Hrun.
Qed.

(** *** The byte counter *)

Lemma step_size_exact (o : op) bw w bw' w' :
  no_finalize [o] = true ->
  size_exact bw ->
  step fw o bw w = Ret (tt, bw', w') ->
  size_exact bw'.
Proof.
  unfold size_exact. intros Hnf Inv Hstep.
  destruct o as [p| |success rnd]; simpl in Hstep; [| |discriminate].
  - unfold bind, ret in Hstep.
    destruct (Write_cases p bw w)
      as [[Hf E]|[[Hf E]|[[Hf [Hover [Hfit E]]]|[Hf E]]]];
      rewrite E in Hstep; try discriminate;
      injection Hstep as <- <-; simpl; try congruence.
    intros _. specialize (Inv Hf).
    apply Z.ltb_ge in Hfit. rewrite len_app, Inv.
    unfold GoInt.add. apply wrap_in_range.
    pose proof (len_nonneg (buffer bw)). pose proof (len_nonneg p).
    unfold GoInt.in_range, GoInt.min_int, GoInt.max_int in *. lia.
  - rewrite Flush_eq in Hstep. injection Hstep as <- <-. simpl. discriminate.
Qed.

(** C2, amended: in every state reached from a new instance by [Write] and
    [Flush] calls alone, while [shouldFlush] is false, [bufferSize] is the
    exact byte length of the buffer.  ([Finalize] empties the buffer and
    leaves [bufferSize] as it was.) *)
Theorem bufferSize_exact_before_finalize
    (cfg : Config) (id : string) (ops : list op) w0 bw w :
  no_finalize ops = true ->
  run fw ops (NewBufferingWriter cfg id) w0 = Ret (tt, bw, w) ->
  shouldFlush bw = false ->
  bufferSize bw = len (buffer bw).
Proof.
  intros Hnf Hrun.
  assert (G : forall ops bw0 w0 bw w,
             no_finalize ops = true -> size_exact bw0 ->
             run fw ops bw0 w0 = Ret (tt, bw, w) -> size_exact bw).
  { clear. induction ops as [|o ops IH]; intros bw0 w0 bw w Hnf Inv Hrun.
    - injection Hrun as <- <-. exact Inv.
    - rewrite run_cons in Hrun.
      destruct (step fw o bw0 w0) as [[[[] bw1] w1]|] eqn:Hstep;
        [|discriminate].
      unfold no_finalize in Hnf. simpl in Hnf.
      apply andb_true_iff in Hnf. destruct Hnf as [Ho Hrest].
      apply (IH bw1 w1 bw w Hrest); [|exact Hrun].
      apply (step_size_exact o bw0 w0 bw1 w1); [|exact Inv|exact Hstep].
      unfold no_finalize. simpl. now rewrite Ho. }
  apply (G ops (NewBufferingWriter cfg id) w0 bw w Hnf); [|exact Hrun].
  unfold size_exact. reflexivity.
Qed.

(** *** Pass-through mode is final *)

Lemma step_sets_flag_clears (o : op) bw0 w0 bw w :
  shouldFlush bw0 = false ->
  step fw o bw0 w0 = Ret (tt, bw, w) ->
  shouldFlush bw = true ->
  buffer bw = [].
Proof.
  intros Hf0 Hstep Hf.
  destruct o as [p| |success rnd]; simpl in Hstep.
  - unfold bind, ret in Hstep.
    destruct (Write_cases p bw0 w0)
      as [[Hf' E]|[[Hf' E]|[[Hf' [_ [_ E]]]|[Hf' E]]]];
      rewrite E in Hstep; try discriminate;
      injection Hstep as <- <-; simpl in *; congruence.
  - rewrite Flush_eq in Hstep. injection Hstep as <- <-. reflexivity.
  - rewrite Finalize_unflushed in Hstep by assumption.
    injection Hstep as <- <-. reflexivity.
Qed.

Lemma run_frozen (ops : list op) bw w :
  shouldFlush bw = true ->
  buffer bw = [] ->
  exists w',
    run fw ops bw w = Ret (tt, bw, w') /\
    sent w' = sent w ++ records ops.
Proof.
  intros Hf Hb. revert w. induction ops as [|o ops IH]; intros w.
  - exists w. simpl. now rewrite app_nil_r.
  - rewrite run_cons. destruct o as [p| |success rnd]; simpl step.
    + unfold bind, ret. rewrite Write_passthrough by assumption.
      destruct (IH (snd (emit fw p w))) as [w' [Hrun Hsent]].
      exists w'. split; [exact Hrun|].
      rewrite Hsent, emit_sent, <- app_assoc. reflexivity.
    + rewrite Flush_eq, cleared_frozen, flush_world_empty by assumption.
      apply IH.
    + rewrite Finalize_flushed by assumption. apply IH.
Qed.

(** C6: once an operation has set [shouldFlush], the instance is frozen
    in pass-through mode: over any later sequence of calls the flag stays
    set and the buffer stays empty, every [Write] hands exactly its record
    to the sink and returns the sink's result, and [Finalize] changes
    nothing and writes nothing. *)
Theorem flushed_is_permanent (o : op) bw0 w0 bw w :
  shouldFlush bw0 = false ->
  step fw o bw0 w0 = Ret (tt, bw, w) ->
  shouldFlush bw = true ->
  buffer bw = [] /\
  (forall (ops : list op) w1,
      exists w',
        run fw ops bw w1 = Ret (tt, bw, w') /\
        sent w' = sent w1 ++ records ops) /\
  (forall p w1,
      Write fw p bw w1 = Ret (fst (emit fw p w1), bw, snd (emit fw p w1))) /\
  (forall (success : bool) (rnd : float) w1,
      Finalize fw success rnd bw w1 = Ret (tt, bw, w1)).
Proof.
  intros Hf0 Hstep Hf.
  assert (Hb : buffer bw = [])
    by (eapply step_sets_flag_clears; eassumption).
  split; [exact Hb|]. split; [|split].
  - intros ops w1. now apply run_frozen.
  - intros p w1. now apply Write_passthrough.
  - intros success rnd w1. now apply Finalize_flushed.
Qed.

(** C4: for every configuration and every non-empty buffer of an unflushed
    instance, [Finalize(false)] writes the buffer's contents to the sink, in
    one call, and empties the buffer. *)
Theorem Finalize_failure_persists (rnd : float) bw w :
  shouldFlush bw = false ->
  buffer bw <> [] ->
  Finalize fw false rnd bw w
  = Ret (tt, set_buffer [] bw, snd (emit fw (buffer bw) w)) /\
  sent (snd (emit fw (buffer bw) w)) = sent w ++ [buffer bw].
Proof.
  intros Hf Hne. split; [|apply emit_sent].
  rewrite Finalize_unflushed by assumption. simpl.
  unfold flush_world. destruct (buffer bw); [contradiction|reflexivity].
Qed.

(** C5: a [Write] on an unflushed instance whose record triggers neither
    [FlushOnError] nor [FlushOnWarn], and for which [bufferSize + len(p)]
    (a sum that fits in an [int]) exceeds [BufferSize], sends the buffered
    bytes and then the record to the sink, in that order, leaves the buffer
    empty and the instance in pass-through mode. *)
Theorem Write_overflow_flushes p bw w :
  shouldFlush bw = false ->
  shouldFlushNow (config bw) (parseLogLevel p) = false ->
  GoInt.in_range (bufferSize bw + len p) ->
  BufferSize (config bw) < bufferSize bw + len p ->
  exists r bw' w',
    Write fw p bw w = Ret (r, bw', w') /\
    sent w' =
      sent w ++ match buffer bw with [] => [] | _ :: _ => [buffer bw] end
             ++ [p] /\
    concat (sent w') = concat (sent w) ++ buffer bw ++ p /\
    buffer bw' = [] /\
    shouldFlush bw' = true /\
    (forall q w1,
        Write fw q bw' w1 = Ret (fst (emit fw q w1), bw', snd (emit fw q w1))).
Proof.
  intros Hf Hnow Hfit Hover.
  assert (Hcode : (BufferSize (config bw) <?
                   GoInt.add (bufferSize bw) (len p)) = true).
  { unfold GoInt.add. rewrite wrap_in_range by assumption.
    now apply Z.ltb_lt. }
  exists (fst (emit fw p (flush_world fw bw w))), (cleared bw),
    (snd (emit fw p (flush_world fw bw w))).
  split; [now apply Write_overflow|].
  split; [now rewrite emit_sent, flush_world_sent, <- app_assoc|].
  split.
  { rewrite emit_sent, concat_app, flush_world_concat. simpl.
    now rewrite app_nil_r, <- app_assoc. }
  split; [reflexivity|]. split; [reflexivity|].
  intros q w1. now apply Write_passthrough.
Qed.

(** C10: a [Write] on an unflushed instance that neither triggers a
    severity flush nor overflows the buffer appends the record and returns
    its full length with a nil error (the sum fits in an [int] and the
    buffer can hold the bytes). *)
Theorem Write_buffers_in_full p bw w :
  shouldFlush bw = false ->
  shouldFlushNow (config bw) (parseLogLevel p) = false ->
  GoInt.in_range (bufferSize bw + len p) ->
  bufferSize bw + len p <= BufferSize (config bw) ->
  len (buffer bw) + len p <= GoInt.max_int ->
  exists bw',
    Write fw p bw w = Ret ((len p, None), bw', w) /\
    buffer bw' = buffer bw ++ p /\
    bufferSize bw' = bufferSize bw + len p /\
    shouldFlush bw' = false.
Proof.
  intros Hf Hnow Hfit Hroom Hgrow.
  exists (set_bufferSize (GoInt.add (bufferSize bw) (len p))
            (set_buffer (buffer bw ++ p) bw)).
  split; [|split; [reflexivity|split]].
  - apply Write_append; try assumption.
    + unfold GoInt.add. rewrite wrap_in_range by assumption.
      now apply Z.ltb_ge.
    + now apply Z.ltb_ge.
  - simpl. unfold GoInt.add. now apply wrap_in_range.
  - exact Hf.
Qed.

(** C3, amended: when a call of [Write] reaches the sink, the value it
    returns is exactly the result (count and error) of the sink's write of
    the record itself, the last downstream call made; hence a failure of
    that write surfaces to the caller.  The result of writing previously
    buffered contents during a forced or overflow flush is discarded. *)
Theorem Write_returns_record_result p bw w (r : Z * option error) bw' w' :
  Write fw p bw w = Ret (r, bw', w') ->
  calls w' <> calls w ->
  exists w1,
    emit fw p w1 = (r, w') /\
    (w1 = w \/
     (shouldFlush bw = false /\ buffer bw <> [] /\
      w1 = snd (emit fw (buffer bw) w))).
Proof.
  intros HW Hcalls.
  destruct (Write_cases p bw w)
    as [[Hf E]|[[Hf E]|[[Hf [_ [_ E]]]|[Hf E]]]];
    rewrite E in HW; try discriminate;
    injection HW as <- <- <-.
  - exists w. split; [now destruct (emit fw p w)|now left].
  - exists (flush_world fw bw w).
    split; [now destruct (emit fw p (flush_world fw bw w))|].
    unfold flush_world. destruct (buffer bw) eqn:Hb.
    + now left.
    + right. repeat split; [exact Hf|discriminate].
  - contradiction.
Qed.

(** *** [BufferingEnabled] *)

Lemma Write_ignores_BufferingEnabled (b : bool) p bw w :
  Write fw p (with_buffering b bw) w =
  match Write fw p bw w with
  | Ret (r, bw', w') => Ret (r, with_buffering b bw', w')
  | Panic => Panic
  end.
Proof.
  destruct (shouldFlush bw) eqn:Hf.
  { rewrite (Write_passthrough p bw w Hf).
    now rewrite (Write_passthrough p (with_buffering b bw) w Hf). }
  destruct (shouldFlushNow (config bw) (parseLogLevel p)) eqn:Hnow.
  { rewrite (Write_forced p bw w Hf Hnow).
    now rewrite (Write_forced p (with_buffering b bw) w Hf Hnow). }
  destruct (BufferSize (config bw) <? GoInt.add (bufferSize bw) (len p))
    eqn:Hover.
  { rewrite (Write_overflow p bw w Hf Hnow Hover).
    now rewrite (Write_overflow p (with_buffering b bw) w Hf Hnow Hover). }
  destruct (GoInt.max_int <? len (buffer bw) + len p) eqn:Hfit.
  - rewrite (Write_too_large p bw w Hf Hnow Hover Hfit).
    now rewrite (Write_too_large p (with_buffering b bw) w Hf Hnow Hover Hfit).
  - rewrite (Write_append p bw w Hf Hnow Hover Hfit).
    now rewrite (Write_append p (with_buffering b bw) w Hf Hnow Hover Hfit).
Qed.

(** C1, amended: [Write] does not read [BufferingEnabled]: with the field
    false a record is buffered or forwarded exactly as with it true.  With
    the field false, [Finalize] always persists any buffered content: the
    buffer, when not empty, goes to the sink whatever [success] and
    [SaveRate] are, and is left empty. *)
Theorem BufferingEnabled_false_still_buffers :
  (forall (b : bool) p bw w,
      Write fw p (with_buffering b bw) w =
      match Write fw p bw w with
      | Ret (r, bw', w') => Ret (r, with_buffering b bw', w')
      | Panic => Panic
      end) /\
  (forall (success : bool) (rnd : float) bw w,
      BufferingEnabled (config bw) = false ->
      flushed_empty bw ->
      exists bw',
        Finalize fw success rnd bw w = Ret (tt, bw', flush_world fw bw w) /\
        buffer bw' = [] /\
        concat (sent (flush_world fw bw w)) = concat (sent w) ++ buffer bw).
Proof.
  split; [exact Write_ignores_BufferingEnabled|].
  intros success rnd bw w Hoff Inv.
  destruct (shouldFlush bw) eqn:Hf.
  - exists bw. rewrite Finalize_flushed by assumption.
    rewrite flush_world_empty by (now apply Inv).
    repeat split.
    + now apply Inv.
    + rewrite (Inv Hf). now rewrite app_nil_r.
  - exists (set_buffer [] bw). rewrite Finalize_unflushed by assumption.
    unfold ShouldSaveOnSuccess. rewrite Hoff. simpl.
    rewrite orb_true_r. repeat split. apply flush_world_concat.
Qed.

End Properties.

(** ** The classifier and the writer on sample records *)

Example parseLogLevel_info : parseLogLevel info_A = InfoLevel.
Proof. reflexivity. Qed.

Example parseLogLevel_error : parseLogLevel error_C = ErrorLevel.
Proof. reflexivity. Qed.

(** Priority wins over position: an error marker before a debug marker
    still classifies as debug. *)
Example parseLogLevel_priority :
  parseLogLevel (error_C ++ debug_B) = DebugLevel.
Proof. reflexivity. Qed.

Example parseLogLevel_default : parseLogLevel (lit "no marker") = InfoLevel.
Proof. reflexivity. Qed.

(** The scenario of the specification: two buffered records, then a
    successful [Finalize] at [SaveRate = 0] sends nothing, and a failed one
    sends both records, in order, in one call. *)
Example scenario_success :
  run ok_write [OpWrite info_A; OpWrite debug_B; OpFinalize true 0.5]
    (NewBufferingWriter scenario_config "r1") (empty_world tt)
  = Ret (tt,
         set_buffer [] (buffered scenario_config (info_A ++ debug_B)),
         empty_world tt).
Proof. vm_compute. reflexivity. Qed.

Example scenario_failure :
  run ok_write [OpWrite info_A; OpWrite debug_B; OpFinalize false 0.5]
    (NewBufferingWriter scenario_config "r1") (empty_world tt)
  = Ret (tt,
         set_buffer [] (buffered scenario_config (info_A ++ debug_B)),
         {| sink := tt;
            calls := [(info_A ++ debug_B,
                       (len (info_A ++ debug_B), None))] |}).
Proof. vm_compute. reflexivity. Qed.

(** ** The theorems at sample inputs *)

(** C1 as stated fails: with [BufferingEnabled] false, an info record
    written to a new instance is appended to the buffer and nothing reaches
    the sink. *)
Lemma unbuffered_Write_is_buffered :
  BufferingEnabled unbuffered_config = false /\
  Write ok_write info_A (NewBufferingWriter unbuffered_config "r1")
    (empty_world tt)
  = Ret ((len info_A, None), buffered unbuffered_config info_A,
         empty_world tt) /\
  sent (empty_world (W := unit) tt) = [] /\
  buffer (buffered unbuffered_config info_A) = info_A.
Proof. repeat split. Qed.

(** With buffering disabled and one record buffered, a successful
    [Finalize] sends the record. *)
Lemma BufferingEnabled_false_still_buffers_witness :
  BufferingEnabled (config (buffered unbuffered_config info_A)) = false /\
  flushed_empty (buffered unbuffered_config info_A) /\
  exists bw',
    Finalize ok_write true 0.5 (buffered unbuffered_config info_A)
      (empty_world tt)
    = Ret (tt, bw',
           flush_world ok_write (buffered unbuffered_config info_A)
             (empty_world tt)) /\
    buffer bw' = [] /\
    concat (sent (flush_world ok_write (buffered unbuffered_config info_A)
                    (empty_world tt)))
    = concat (sent (empty_world (W := unit) tt))
      ++ buffer (buffered unbuffered_config info_A).
Proof.
  split; [reflexivity|]. split; [discriminate|].
  apply (proj2 (BufferingEnabled_false_still_buffers ok_write)).
  - reflexivity.
  - discriminate.
Defined.

(** C2 as stated fails: after one buffered record and a successful
    [Finalize] at [SaveRate = 0] the flag is still false, the buffer is
    empty and [bufferSize] still counts the record. *)
Lemma bufferSize_stale_after_Finalize :
  run ok_write [OpWrite info_A; OpFinalize true 0.5]
    (NewBufferingWriter scenario_config "r1") (empty_world tt)
  = Ret (tt, set_buffer [] (buffered scenario_config info_A),
         empty_world tt) /\
  shouldFlush (set_buffer [] (buffered scenario_config info_A)) = false /\
  bufferSize (set_buffer [] (buffered scenario_config info_A)) = 30 /\
  len (buffer (set_buffer [] (buffered scenario_config info_A))) = 0 /\
  bufferSize (set_buffer [] (buffered scenario_config info_A))
  <> len (buffer (set_buffer [] (buffered scenario_config info_A))).
Proof. repeat split. discriminate. Qed.

(** After two buffered records the counter is the buffer's length. *)
Lemma bufferSize_exact_before_finalize_witness :
  no_finalize [OpWrite info_A; OpWrite debug_B] = true /\
  shouldFlush (buffered scenario_config (info_A ++ debug_B)) = false /\
  bufferSize (buffered scenario_config (info_A ++ debug_B))
  = len (buffer (buffered scenario_config (info_A ++ debug_B))).
Proof.
  split; [reflexivity|]. split; [reflexivity|].
  apply (bufferSize_exact_before_finalize ok_write scenario_config "r1"
           [OpWrite info_A; OpWrite debug_B] (empty_world tt)
           (buffered scenario_config (info_A ++ debug_B)) (empty_world tt)).
  - reflexivity.
  - vm_compute. reflexivity.
  - reflexivity.
Defined.

(** C3 as stated fails: on a sink whose first call fails, an error record
    written over a non-empty buffer makes two downstream calls; the first,
    carrying the buffered bytes, fails, and [Write] returns a nil error. *)
Lemma buffered_flush_failure_is_dropped :
  Write flaky_write error_C (buffered DefaultConfig info_A)
    (empty_world 0%nat)
  = Ret ((len error_C, None), cleared (buffered DefaultConfig info_A),
         {| sink := 2%nat;
            calls := [(info_A, (0, Some "sink unavailable"%string));
                      (error_C, (len error_C, None))] |}).
Proof. vm_compute. reflexivity. Qed.

(** On the sink whose first call fails, the value returned is the result
    of the second call, the write of the record. *)
Lemma Write_returns_record_result_witness :
  exists w1,
    emit flaky_write error_C w1
    = ((len error_C, None),
       {| sink := 2%nat;
          calls := [(info_A, (0, Some "sink unavailable"%string));
                    (error_C, (len error_C, None))] |}) /\
    (w1 = empty_world 0%nat \/
     (shouldFlush (buffered DefaultConfig info_A) = false /\
      buffer (buffered DefaultConfig info_A) <> [] /\
      w1 = snd (emit flaky_write (buffer (buffered DefaultConfig info_A))
                  (empty_world 0%nat)))).
Proof.
  apply (Write_returns_record_result flaky_write error_C
           (buffered DefaultConfig info_A) (empty_world 0%nat)
           (len error_C, None) (cleared (buffered DefaultConfig info_A))).
  - vm_compute. reflexivity.
  - discriminate.
Defined.

(** A failed [Finalize] at [SaveRate = 0] sends the two buffered records. *)
Lemma Finalize_failure_persists_witness :
  shouldFlush (buffered scenario_config (info_A ++ debug_B)) = false /\
  buffer (buffered scenario_config (info_A ++ debug_B)) <> [] /\
  Finalize ok_write false 0.5
    (buffered scenario_config (info_A ++ debug_B)) (empty_world tt)
  = Ret (tt, set_buffer [] (buffered scenario_config (info_A ++ debug_B)),
         snd (emit ok_write
                (buffer (buffered scenario_config (info_A ++ debug_B)))
                (empty_world tt))) /\
  sent (snd (emit ok_write
               (buffer (buffered scenario_config (info_A ++ debug_B)))
               (empty_world tt)))
  = sent (empty_world (W := unit) tt)
    ++ [buffer (buffered scenario_config (info_A ++ debug_B))].
Proof.
  split; [reflexivity|]. split; [discriminate|].
  apply (Finalize_failure_persists ok_write 0.5
           (buffered scenario_config (info_A ++ debug_B)) (empty_world tt)).
  - reflexivity.
  - discriminate.
Defined.

(** Eight buffered bytes, a limit of ten and a record of three. *)
Lemma Write_overflow_flushes_witness :
  BufferSize (config (buffered tiny_config (lit "12345678")))
  < bufferSize (buffered tiny_config (lit "12345678")) + len (lit "abc") /\
  exists r bw' w',
    Write ok_write (lit "abc") (buffered tiny_config (lit "12345678"))
      (empty_world tt) = Ret (r, bw', w') /\
    sent w' =
      sent (empty_world (W := unit) tt)
      ++ match buffer (buffered tiny_config (lit "12345678")) with
         | [] => []
         | _ :: _ => [buffer (buffered tiny_config (lit "12345678"))]
         end
      ++ [lit "abc"] /\
    concat (sent w')
    = concat (sent (empty_world (W := unit) tt))
      ++ buffer (buffered tiny_config (lit "12345678")) ++ lit "abc" /\
    buffer bw' = [] /\
    shouldFlush bw' = true /\
    (forall q w1,
        Write ok_write q bw' w1
        = Ret (fst (emit ok_write q w1), bw', snd (emit ok_write q w1))).
Proof.
  split; [reflexivity|].
  apply (Write_overflow_flushes ok_write (lit "abc")
           (buffered tiny_config (lit "12345678")) (empty_world tt)).
  - reflexivity.
  - reflexivity.
  - vm_compute. split; discriminate.
  - reflexivity.
Defined.

(** A debug record after an info record, far below the limit. *)
Lemma Write_buffers_in_full_witness :
  bufferSize (buffered scenario_config info_A) + len debug_B
  <= BufferSize (config (buffered scenario_config info_A)) /\
  exists bw',
    Write ok_write debug_B (buffered scenario_config info_A) (empty_world tt)
    = Ret ((len debug_B, None), bw', empty_world tt) /\
    buffer bw' = buffer (buffered scenario_config info_A) ++ debug_B /\
    bufferSize bw'
    = bufferSize (buffered scenario_config info_A) + len debug_B /\
    shouldFlush bw' = false.
Proof.
  split; [vm_compute; discriminate|].
  apply (Write_buffers_in_full ok_write debug_B
           (buffered scenario_config info_A) (empty_world tt)).
  - reflexivity.
  - reflexivity.
  - vm_compute. split; discriminate.
  - vm_compute. discriminate.
  - vm_compute. discriminate.
Defined.

(** An error record sets the flag; a later write, a failed [Finalize] and
    another write send exactly the two records written. *)
Lemma flushed_is_permanent_witness :
  shouldFlush (buffered DefaultConfig info_A) = false /\
  step ok_write (OpWrite error_C) (buffered DefaultConfig info_A)
    (empty_world tt)
  = Ret (tt, cleared (buffered DefaultConfig info_A),
         {| sink := tt;
            calls := [(info_A, (len info_A, None));
                      (error_C, (len error_C, None))] |}) /\
  exists w',
    run ok_write [OpWrite debug_B; OpFinalize false 0.5; OpWrite info_A]
      (cleared (buffered DefaultConfig info_A)) (empty_world tt)
    = Ret (tt, cleared (buffered DefaultConfig info_A), w') /\
    sent w' = sent (empty_world (W := unit) tt) ++ [debug_B; info_A].
Proof.
  split; [reflexivity|]. split; [vm_compute; reflexivity|].
  apply (proj1 (proj2
    (flushed_is_permanent ok_write (OpWrite error_C)
       (buffered DefaultConfig info_A) (empty_world tt)
       (cleared (buffered DefaultConfig info_A))
       {| sink := tt;
          calls := [(info_A, (len info_A, None));
                    (error_C, (len error_C, None))] |}
       eq_refl ltac:(vm_compute; reflexivity) eq_refl))
    [OpWrite debug_B; OpFinalize false 0.5; OpWrite info_A]
    (empty_world tt)).
Defined.

(** Info, error, debug, then a successful [Finalize]: each record reaches
    the sink once. *)
Lemma flushed_empty_no_duplicates_witness :
  run ok_write
    [OpWrite info_A; OpWrite error_C; OpWrite debug_B; OpFinalize true 0.5]
    (NewBufferingWriter DefaultConfig "r1") (empty_world tt)
  = Ret (tt, cleared (buffered DefaultConfig info_A),
         {| sink := tt;
            calls := [(info_A, (len info_A, None));
                      (error_C, (len error_C, None));
                      (debug_B, (len debug_B, None))] |}) /\
  flushed_empty (cleared (buffered DefaultConfig info_A)) /\
  accounted (error := string) (cleared (buffered DefaultConfig info_A))
    {| sink := tt;
       calls := [(info_A, (len info_A, None));
                 (error_C, (len error_C, None));
                 (debug_B, (len debug_B, None))] |}
    [info_A; error_C; debug_B].
Proof.
  split; [vm_compute; reflexivity|].
  apply (proj2 (proj2 (flushed_empty_no_duplicates ok_write))
           DefaultConfig "r1"%string
           [OpWrite info_A; OpWrite error_C; OpWrite debug_B;
            OpFinalize true 0.5]
           (empty_world tt)).
  - reflexivity.
  - vm_compute. reflexivity.
Defined.

(** * Further properties of the writer *)

Section WriterLaws.

Context {error W : Type}.
Variable fw : bytes -> W -> (Z * option error) * W.

Implicit Types (bw : BufferingWriter) (w : World error W) (p : bytes).

(** *** Sequences of calls, split and joined *)

Lemma run_app (ops1 ops2 : list op) bw w :
  run fw (ops1 ++ ops2) bw w =
  match run fw ops1 bw w with
  | Ret (_, bw1, w1) => run fw ops2 bw1 w1
  | Panic => Panic
  end.
Proof.
  revert bw w. induction ops1 as [|o ops1 IH]; intros bw w.
  - reflexivity.
  - simpl app. rewrite !run_cons.
    destruct (step fw o bw w) as [[[[] bw1] w1]|]; [apply IH|reflexivity].
Qed.

Lemma step_Write p bw w :
  step fw (OpWrite p) bw w =
  match Write fw p bw w with
  | Ret (_, bw1, w1) => Ret (tt, bw1, w1)
  | Panic => Panic
  end.
Proof. reflexivity. Qed.

Lemma step_keeps_flag (o : op) bw w bw' w' :
  shouldFlush bw = true ->
  step fw o bw w = Ret (tt, bw', w') ->
  shouldFlush bw' = true.
Proof.
  intros Hf Hstep. destruct o as [p| |success rnd].
  - rewrite step_Write, (Write_passthrough fw p bw w Hf) in Hstep.
    now injection Hstep as <- <-.
  - simpl in Hstep. rewrite Flush_eq in Hstep. now injection Hstep as <- <-.
  - simpl in Hstep. rewrite Finalize_flushed in Hstep by assumption.
    now injection Hstep as <- <-.
Qed.

Lemma run_keeps_flag (ops : list op) bw w bw' w' :
  shouldFlush bw = true ->
  run fw ops bw w = Ret (tt, bw', w') ->
  shouldFlush bw' = true.
Proof.
  revert bw w. induction ops as [|o ops IH]; intros bw w Hf Hrun.
  - now injection Hrun as <- <-.
  - rewrite run_cons in Hrun.
    destruct (step fw o bw w) as [[[[] bw1] w1]|] eqn:Hstep; [|discriminate].
    apply (IH bw1 w1); [|exact Hrun].
    eapply step_keeps_flag; eassumption.
Qed.

(** *** While unflushed, nothing has reached the sink *)

Lemma run_unflushed (ops : list op) bw0 w0 bw w :
  no_finalize ops = true ->
  run fw ops bw0 w0 = Ret (tt, bw, w) ->
  shouldFlush bw = false ->
  w = w0 /\ buffer bw = buffer bw0 ++ concat (records ops).
Proof.
  revert bw0 w0. induction ops as [|o ops IH]; intros bw0 w0 Hnf Hrun Hf.
  - injection Hrun as <- <-. simpl. now rewrite app_nil_r.
  - rewrite run_cons in Hrun.
    destruct (step fw o bw0 w0) as [[[[] bw1] w1]|] eqn:Hstep; [|discriminate].
    unfold no_finalize in Hnf. simpl in Hnf.
    apply andb_true_iff in Hnf. destruct Hnf as [Ho Hrest].
    assert (Hf1 : shouldFlush bw1 = false).
    { destruct (shouldFlush bw1) eqn:E; [|reflexivity].
      rewrite (run_keeps_flag ops bw1 w1 bw w E Hrun) in Hf. discriminate. }
    destruct (IH bw1 w1 Hrest Hrun Hf) as [-> Hbuf].
    destruct o as [p| |success rnd]; [| |discriminate].
    + rewrite step_Write in Hstep.
      destruct (Write_cases fw p bw0 w0)
        as [[Hf0 E]|[[Hf0 E]|[[Hf0 [_ [_ E]]]|[Hf0 E]]]];
        rewrite E in Hstep; try discriminate;
        injection Hstep as <- <-; simpl in *; try congruence.
      split; [reflexivity|]. now rewrite Hbuf, <- app_assoc.
    + simpl in Hstep. rewrite Flush_eq in Hstep.
      injection Hstep as <- <-. discriminate.
Qed.

(** X1: over any sequence of [Write] and [Flush] calls on a new instance,
    as long as [shouldFlush] is still false the sink has received nothing
    and the buffer holds every record written, in arrival order. *)
Theorem unflushed_sink_untouched
    (cfg : Config) (id : string) (ops : list op) w0 bw w :
  no_finalize ops = true ->
  run fw ops (NewBufferingWriter cfg id) w0 = Ret (tt, bw, w) ->
  shouldFlush bw = false ->
  w = w0 /\ buffer bw = concat (records ops).
Proof.
  intros Hnf Hrun Hf.
  apply (run_unflushed ops (NewBufferingWriter cfg id) w0 bw w Hnf Hrun Hf).
Qed.

(** *** Nothing is lost unless a successful [Finalize] discards it *)

Lemma step_lossless (o : op) bw w bw' w' :
  no_discard [o] = true ->
  flushed_empty bw ->
  step fw o bw w = Ret (tt, bw', w') ->
  concat (sent w') ++ buffer bw' =
  concat (sent w) ++ buffer bw ++ concat (records [o]).
Proof.
  intros Hnd Inv Hstep. destruct o as [p| |success rnd]; simpl records.
  - rewrite step_Write in Hstep. simpl concat. rewrite app_nil_r.
    destruct (Write_cases fw p bw w)
      as [[Hf E]|[[Hf E]|[[Hf [_ [_ E]]]|[Hf E]]]];
      rewrite E in Hstep; try discriminate;
      injection Hstep as <- <-; simpl.
    + rewrite emit_sent, concat_app, (Inv Hf). simpl.
      now rewrite !app_nil_r.
    + rewrite emit_sent, concat_app, flush_world_concat. simpl.
      now rewrite !app_nil_r, <- app_assoc.
    + reflexivity.
  - simpl in Hstep. rewrite Flush_eq in Hstep. injection Hstep as <- <-.
    simpl. now rewrite flush_world_concat, !app_nil_r.
  - simpl. rewrite app_nil_r. simpl in Hstep.
    destruct (shouldFlush bw) eqn:Hf.
    + rewrite Finalize_flushed in Hstep by assumption.
      now injection Hstep as <- <-.
    + rewrite Finalize_unflushed in Hstep by assumption.
      destruct success; [discriminate|]. simpl in Hstep.
      injection Hstep as <- <-. simpl.
      now rewrite flush_world_concat, app_nil_r.
Qed.

Lemma run_lossless (ops : list op) bw w bw' w' :
  no_discard ops = true ->
  flushed_empty bw ->
  run fw ops bw w = Ret (tt, bw', w') ->
  flushed_empty bw' /\
  concat (sent w') ++ buffer bw' =
  concat (sent w) ++ buffer bw ++ concat (records ops).
Proof.
  revert bw w. induction ops as [|o ops IH]; intros bw w Hnd Inv Hrun.
  - injection Hrun as <- <-. simpl. now rewrite app_nil_r.
  - rewrite run_cons in Hrun.
    destruct (step fw o bw w) as [[[[] bw1] w1]|] eqn:Hstep; [|discriminate].
    unfold no_discard in Hnd. simpl in Hnd.
    apply andb_true_iff in Hnd. destruct Hnd as [Ho Hrest].
    assert (Inv1 : flushed_empty bw1)
      by (eapply step_flushed_empty; eassumption).
    destruct (IH bw1 w1 Hrest Inv1 Hrun) as [Inv' Heq].
    split; [exact Inv'|]. rewrite Heq.
    assert (H1 : no_discard [o] = true)
      by (unfold no_discard; simpl; now rewrite Ho).
    rewrite (app_assoc (concat (sent w1))).
    rewrite (step_lossless o bw w bw1 w1 H1 Inv Hstep).
    change (o :: ops) with ([o] ++ ops).
    now rewrite records_app, concat_app, <- !app_assoc.
Qed.

(** X2: over any sequence of calls on a new instance that contains no
    successful [Finalize], the bytes received by the sink followed by the
    bytes still buffered are exactly the records written, in order: no
    gap, no duplicate, no reordering. *)
Theorem lossless_without_discard
    (cfg : Config) (id : string) (ops : list op) w0 bw w :
  no_discard ops = true ->
  calls w0 = [] ->
  run fw ops (NewBufferingWriter cfg id) w0 = Ret (tt, bw, w) ->
  concat (sent w) ++ buffer bw = concat (records ops).
Proof.
  intros Hnd Hw0 Hrun.
  destruct (run_lossless ops (NewBufferingWriter cfg id) w0 bw w Hnd
              (New_flushed_empty cfg id) Hrun) as [_ Heq].
  rewrite Heq. unfold sent. now rewrite Hw0.
Qed.

Lemma run_settled (ops : list op) (last : op) bw0 w0 bw w :
  no_discard ops = true ->
  (last = OpFlush \/ exists rnd, last = OpFinalize false rnd) ->
  flushed_empty bw0 ->
  run fw (ops ++ [last]) bw0 w0 = Ret (tt, bw, w) ->
  concat (sent w) = concat (sent w0) ++ buffer bw0 ++ concat (records ops) /\
  buffer bw = [] /\
  (last = OpFlush -> shouldFlush bw = true).
Proof.
  intros Hnd Hlast Inv0 Hrun.
  rewrite run_app in Hrun.
  destruct (run fw ops bw0 w0) as [[[[] bw1] w1]|] eqn:Hops; [|discriminate].
  destruct (run_lossless ops bw0 w0 bw1 w1 Hnd Inv0 Hops) as [Inv1 Heq].
  rewrite run_cons in Hrun.
  destruct (step fw last bw1 w1) as [[[[] bw2] w2]|] eqn:Hstep;
    [|discriminate].
  injection Hrun as <- <-.
  destruct Hlast as [->|[rnd ->]]; simpl in Hstep.
  - rewrite Flush_eq in Hstep. injection Hstep as <- <-.
    split; [now rewrite flush_world_concat|]. split; reflexivity.
  - destruct (shouldFlush bw1) eqn:Hf.
    + rewrite Finalize_flushed in Hstep by assumption.
      injection Hstep as <- <-.
      rewrite (Inv1 Hf), app_nil_r in Heq.
      split; [exact Heq|]. split; [now apply Inv1|discriminate].
    + rewrite Finalize_unflushed in Hstep by assumption.
      injection Hstep as <- <-. simpl.
      split; [now rewrite flush_world_concat|].
      split; [reflexivity|discriminate].
Qed.

(** X3: when such a sequence ends with [Flush] or with a failed
    [Finalize], the sink has received every byte written, in order, and
    the buffer is empty. *)
Theorem terminated_delivers_everything
    (cfg : Config) (id : string) (ops : list op) (last : op) w0 bw w :
  no_discard ops = true ->
  (last = OpFlush \/ exists rnd, last = OpFinalize false rnd) ->
  calls w0 = [] ->
  run fw (ops ++ [last]) (NewBufferingWriter cfg id) w0 = Ret (tt, bw, w) ->
  concat (sent w) = concat (records ops) /\ buffer bw = [].
Proof.
  intros Hnd Hlast Hw0 Hrun.
  destruct (run_settled ops last (NewBufferingWriter cfg id) w0 bw w Hnd
              Hlast (New_flushed_empty cfg id) Hrun) as [Heq [Hb _]].
  split; [|exact Hb]. rewrite Heq. unfold sent. now rewrite Hw0.
Qed.

(** *** [Flush] *)

Lemma cleared_cleared bw : cleared (cleared bw) = cleared bw.
Proof. reflexivity. Qed.

(** X4: [Flush] is idempotent, and it settles the instance: right after a
    [Flush], another [Flush] or a [Finalize] with any arguments makes no
    downstream call and changes nothing. *)
Theorem Flush_idempotent (o : op) (ops : list op) bw w :
  (o = OpFlush \/ exists success rnd, o = OpFinalize success rnd) ->
  run fw (OpFlush :: o :: ops) bw w = run fw (OpFlush :: ops) bw w.
Proof.
  intros Ho. rewrite !(run_cons fw OpFlush). simpl step. rewrite Flush_eq.
  rewrite run_cons. destruct Ho as [->|[success [rnd ->]]]; simpl step.
  - rewrite Flush_eq, cleared_cleared.
    now rewrite flush_world_empty by reflexivity.
  - now rewrite Finalize_flushed by reflexivity.
Qed.

(** *** Severity triggers *)

(** X5: on an unflushed instance, a record classified error, fatal or
    panic under [FlushOnError], or warn under [FlushOnWarn], is never
    buffered, whatever the sizes: the buffered bytes, if any, go to the sink
    in one call, then the record in another; the buffer is left empty, the
    instance in pass-through mode, and the value returned is the sink's
    result for the record. *)
Theorem Write_severity_flushes p bw w :
  shouldFlush bw = false ->
  (FlushOnError (config bw) = true /\
   In (parseLogLevel p) [ErrorLevel; FatalLevel; PanicLevel]) \/
  (FlushOnWarn (config bw) = true /\ parseLogLevel p = WarnLevel) ->
  exists bw' w',
    Write fw p bw w = Ret (fst (emit fw p (flush_world fw bw w)), bw', w') /\
    sent w' =
      sent w ++ match buffer bw with [] => [] | _ :: _ => [buffer bw] end
             ++ [p] /\
    buffer bw' = [] /\
    shouldFlush bw' = true /\
    bufferSize bw' = bufferSize bw.
Proof.
  intros Hf Htrig.
  assert (Hnow : shouldFlushNow (config bw) (parseLogLevel p) = true).
  { unfold shouldFlushNow.
    destruct Htrig as [[He Hl]|[Hw Hl]].
    - rewrite He. simpl in Hl.
      destruct Hl as [<-|[<-|[<-|[]]]]; reflexivity.
    - now rewrite Hl, Hw. }
  exists (cleared bw), (snd (emit fw p (flush_world fw bw w))).
  split; [now apply Write_forced|].
  split; [now rewrite emit_sent, flush_world_sent, <- app_assoc|].
  repeat split.
Qed.

Lemma low_marker_low_level p (l : Level) :
  In l low_levels ->
  occurs (marker l) p ->
  In (parseLogLevel p) low_levels.
Proof.
  intros Hl Hocc. apply Contains_spec in Hocc.
  unfold parseLogLevel, low_levels in *. simpl in Hl.
  destruct Hl as [<-|[<-|[<-|[]]]]; unfold marker, level_name in Hocc;
    repeat match goal with
           | |- context [if Contains p ?m then _ else _] =>
               destruct (Contains p m) eqn:?
           end; simpl; auto; congruence.
Qed.

(** X6: the priority order masks the higher severities: a record that
    contains the marker of trace, debug or info triggers no severity flush
    under any configuration, even when it also contains the marker of
    error, fatal, panic or warn; with room in the buffer it is appended and
    the sink is not called. *)
Theorem low_marker_masks_severity p (l : Level) bw w :
  In l low_levels ->
  occurs (marker l) p ->
  shouldFlush bw = false ->
  GoInt.in_range (bufferSize bw + len p) ->
  bufferSize bw + len p <= BufferSize (config bw) ->
  len (buffer bw) + len p <= GoInt.max_int ->
  shouldFlushNow (config bw) (parseLogLevel p) = false /\
  Write fw p bw w
  = Ret ((len p, None),
         set_bufferSize (bufferSize bw + len p)
           (set_buffer (buffer bw ++ p) bw),
         w).
Proof.
  intros Hl Hocc Hf Hrange Hroom Hgrow.
  assert (Hnow : shouldFlushNow (config bw) (parseLogLevel p) = false).
  { pose proof (low_marker_low_level p l Hl Hocc) as Hlow.
    unfold low_levels in Hlow. simpl in Hlow. unfold shouldFlushNow.
    destruct Hlow as [<-|[<-|[<-|[]]]]; reflexivity. }
  split; [exact Hnow|].
  rewrite Write_append; try assumption.
  - unfold GoInt.add. now rewrite wrap_in_range.
  - unfold GoInt.add. rewrite wrap_in_range by assumption. now apply Z.ltb_ge.
  - now apply Z.ltb_ge.
Qed.

(** *** The size of the buffer *)

Lemma New_bounded (cfg : Config) (id : string) :
  bounded cfg (NewBufferingWriter cfg id).
Proof.
  unfold bounded. simpl. change (len []) with 0.
  split; [reflexivity|split; lia].
Qed.

Lemma Write_bounded (cfg : Config) p bw w :
  bounded cfg bw ->
  fits cfg p ->
  exists r bw' w',
    Write fw p bw w = Ret (r, bw', w') /\ bounded cfg bw'.
Proof.
  unfold bounded, fits. intros [Hc [Hlen Hsize]] Hfits.
  pose proof (len_nonneg (buffer bw)) as Hb0.
  pose proof (len_nonneg p) as Hp0.
  destruct (shouldFlush bw) eqn:Hf.
  { exists (fst (emit fw p w)), bw, (snd (emit fw p w)).
    split; [now apply Write_passthrough|auto]. }
  destruct (shouldFlushNow (config bw) (parseLogLevel p)) eqn:Hnow.
  { exists (fst (emit fw p (flush_world fw bw w))), (cleared bw),
      (snd (emit fw p (flush_world fw bw w))).
    split; [now apply Write_forced|].
    simpl. split; [exact Hc|split; [|exact Hsize]].
    change (len []) with 0. lia. }
  destruct (BufferSize (config bw) <? GoInt.add (bufferSize bw) (len p))
    eqn:Hover.
  { exists (fst (emit fw p (flush_world fw bw w))), (cleared bw),
      (snd (emit fw p (flush_world fw bw w))).
    split; [now apply Write_overflow|].
    simpl. split; [exact Hc|split; [|exact Hsize]].
    change (len []) with 0. lia. }
  assert (Hrange : GoInt.in_range (bufferSize bw + len p)).
  { unfold GoInt.in_range, GoInt.min_int, GoInt.max_int in *. lia. }
  assert (Hfit : (GoInt.max_int <? len (buffer bw) + len p) = false).
  { apply Z.ltb_ge. lia. }
  exists (len p, None),
    (set_bufferSize (GoInt.add (bufferSize bw) (len p))
       (set_buffer (buffer bw ++ p) bw)), w.
  split; [now apply Write_append|].
  unfold GoInt.add in *. rewrite wrap_in_range in * by assumption.
  apply Z.ltb_ge in Hover. rewrite Hc in Hover.
  simpl. rewrite len_app. split; [exact Hc|split; lia].
Qed.

Lemma step_bounded (cfg : Config) (o : op) bw w :
  bounded cfg bw ->
  Forall (fits cfg) (records [o]) ->
  exists bw' w', step fw o bw w = Ret (tt, bw', w') /\ bounded cfg bw'.
Proof.
  intros Hb Hfits. destruct o as [p| |success rnd].
  - simpl in Hfits. apply Forall_inv in Hfits.
    destruct (Write_bounded cfg p bw w Hb Hfits) as [r [bw' [w' [E Hb']]]].
    exists bw', w'. rewrite step_Write, E. auto.
  - exists (cleared bw), (flush_world fw bw w).
    split; [apply Flush_eq|].
    destruct Hb as [Hc [Hlen Hsize]].
    pose proof (len_nonneg (buffer bw)).
    unfold bounded. simpl. change (len []) with 0.
    split; [exact Hc|split; [lia|exact Hsize]].
  - destruct Hb as [Hc [Hlen Hsize]].
    pose proof (len_nonneg (buffer bw)).
    simpl. destruct (shouldFlush bw) eqn:Hf.
    + exists bw, w. split; [now apply Finalize_flushed|].
      unfold bounded. auto.
    + rewrite Finalize_unflushed by assumption.
      eexists _, _. split; [reflexivity|].
      unfold bounded. simpl. change (len []) with 0.
      split; [exact Hc|split; [lia|exact Hsize]].
Qed.

Lemma run_bounded (cfg : Config) (ops : list op) bw w :
  bounded cfg bw ->
  Forall (fits cfg) (records ops) ->
  exists bw' w', run fw ops bw w = Ret (tt, bw', w') /\ bounded cfg bw'.
Proof.
  revert bw w. induction ops as [|o ops IH]; intros bw w Hb Hfits.
  - exists bw, w. auto.
  - change (o :: ops) with ([o] ++ ops) in Hfits.
    rewrite records_app in Hfits. apply Forall_app in Hfits.
    destruct Hfits as [Ho Hrest].
    destruct (step_bounded cfg o bw w Hb Ho) as [bw1 [w1 [E Hb1]]].
    rewrite run_cons, E. now apply IH.
Qed.

(** X7: when every record written is short enough for one more buffer's
    worth of bytes to stay within [int], any sequence of [Write], [Flush]
    and [Finalize] calls on a new instance returns, leaves the
    configuration as it was, and never holds more than [BufferSize] bytes
    in the buffer. *)
Theorem buffer_never_exceeds_BufferSize
    (cfg : Config) (id : string) (ops : list op) w0 :
  Forall (fits cfg) (records ops) ->
  exists bw w,
    run fw ops (NewBufferingWriter cfg id) w0 = Ret (tt, bw, w) /\
    config bw = cfg /\
    len (buffer bw) <= Z.max 0 (BufferSize cfg).
Proof.
  intros Hfits.
  destruct (run_bounded cfg ops (NewBufferingWriter cfg id) w0
              (New_bounded cfg id) Hfits)
    as [bw [w [E [Hc [Hlen Hsize]]]]].
  exists bw, w. split; [exact E|split; [exact Hc|lia]].
Qed.

Lemma run_quiet (cfg : Config) (lines : list bytes) bw w :
  config bw = cfg ->
  shouldFlush bw = false ->
  bufferSize bw = len (buffer bw) ->
  forallb (quiet cfg) lines = true ->
  len (buffer bw) + len (concat lines) <= BufferSize cfg ->
  BufferSize cfg <= GoInt.max_int ->
  run fw (map OpWrite lines) bw w
  = Ret (tt,
         set_bufferSize (len (buffer bw ++ concat lines))
           (set_buffer (buffer bw ++ concat lines) bw),
         w).
Proof.
  revert bw. induction lines as [|p lines IH];
    intros bw Hc Hf Hsz Hq Hroom Hmax.
  - simpl. rewrite app_nil_r, <- Hsz. now destruct bw.
  - simpl in Hq. apply andb_true_iff in Hq. destruct Hq as [Hp Hq].
    unfold quiet in Hp. apply negb_true_iff in Hp.
    simpl concat in *. rewrite len_app in Hroom.
    pose proof (len_nonneg (buffer bw)). pose proof (len_nonneg p).
    pose proof (len_nonneg (concat lines)).
    assert (Hrange : GoInt.in_range (bufferSize bw + len p)).
    { unfold GoInt.in_range, GoInt.min_int, GoInt.max_int in *. lia. }
    simpl map. rewrite run_cons, step_Write.
    rewrite Write_append; try assumption.
    + unfold GoInt.add. rewrite wrap_in_range by assumption.
      rewrite IH; simpl; try assumption.
      * now rewrite <- !app_assoc.
      * rewrite len_app. lia.
      * rewrite len_app. lia.
    + now rewrite Hc.
    + unfold GoInt.add. rewrite wrap_in_range by assumption.
      apply Z.ltb_ge. rewrite Hc. lia.
    + apply Z.ltb_ge. unfold GoInt.max_int in *. lia.
Qed.

(** X8: records that trigger no severity flush and whose total length is
    at most [BufferSize] are all buffered when written, one after the
    other, to a new instance: the sink is not called, the buffer holds
    their concatenation and the counter its length. *)
Theorem quiet_records_all_buffered
    (cfg : Config) (id : string) (lines : list bytes) w0 :
  forallb (quiet cfg) lines = true ->
  len (concat lines) <= BufferSize cfg ->
  BufferSize cfg <= GoInt.max_int ->
  run fw (map OpWrite lines) (NewBufferingWriter cfg id) w0
  = Ret (tt,
         {| buffer := concat lines; shouldFlush := false; config := cfg;
            requestID := id; bufferSize := len (concat lines) |},
         w0).
Proof.
  intros Hq Hroom Hmax.
  apply (run_quiet cfg lines (NewBufferingWriter cfg id) w0);
    try reflexivity; assumption.
Qed.

(** *** [Finalize] after success *)

Lemma is_nan_Prim2SF (x : float) : is_nan x = true -> Prim2SF x = S754_nan.
Proof. intros H. unfold Prim2SF. now rewrite H. Qed.

Lemma nan_not_leb (x y : float) : is_nan x = true -> (x <=? y)%float = false.
Proof.
  intros H. rewrite leb_spec, (is_nan_Prim2SF x H). reflexivity.
Qed.

Lemma not_leb_nan (x y : float) : is_nan y = true -> (x <=? y)%float = false.
Proof.
  intros H. rewrite leb_spec, (is_nan_Prim2SF y H).
  now destruct (Prim2SF x).
Qed.

Lemma not_ltb_nan (x y : float) : is_nan y = true -> (x <? y)%float = false.
Proof.
  intros H. rewrite ltb_spec, (is_nan_Prim2SF y H).
  now destruct (Prim2SF x).
Qed.

(** X9: on an unflushed instance with buffering enabled, a successful
    [Finalize] discards the buffer without calling the sink when
    [SaveRate <= 0], and hands the buffer to the sink, when it is not
    empty, when [SaveRate >= 100]; the draw is not consulted in either
    case. *)
Theorem Finalize_success_at_the_bounds (rnd : float) bw w :
  shouldFlush bw = false ->
  BufferingEnabled (config bw) = true ->
  ((SaveRate (config bw) <=? 0)%float = true ->
   Finalize fw true rnd bw w = Ret (tt, set_buffer [] bw, w)) /\
  ((100 <=? SaveRate (config bw))%float = true ->
   Finalize fw true rnd bw w
   = Ret (tt, set_buffer [] bw, flush_world fw bw w)).
Proof.
  intros Hf Hen. rewrite Finalize_unflushed by assumption.
  unfold ShouldSaveOnSuccess. rewrite Hen. simpl. split.
  - now intros ->.
  - intros H. now rewrite (leb_100_not_leb_0 _ H), H.
Qed.

(** X10: a [SaveRate] that is not a number never saves: with buffering
    enabled [ShouldSaveOnSuccess] is false for every draw, and a successful
    [Finalize] on an unflushed instance discards the buffer without calling
    the sink. *)
Theorem NaN_SaveRate_never_saves (rnd : float) bw w :
  BufferingEnabled (config bw) = true ->
  is_nan (SaveRate (config bw)) = true ->
  ShouldSaveOnSuccess bw rnd = false /\
  (shouldFlush bw = false ->
   Finalize fw true rnd bw w = Ret (tt, set_buffer [] bw, w)).
Proof.
  intros Hen Hnan.
  assert (Hs : ShouldSaveOnSuccess bw rnd = false).
  { unfold ShouldSaveOnSuccess. rewrite Hen. simpl.
    rewrite (nan_not_leb _ 0%float Hnan).
    rewrite (not_leb_nan 100%float _ Hnan).
    apply (not_ltb_nan _ _ Hnan). }
  split; [exact Hs|].
  intros Hf. rewrite Finalize_unflushed by assumption.
  now rewrite Hs.
Qed.

(** X11: the counter survives [Finalize]: once an unflushed instance whose
    counter equals its buffer's length has been finalized, the buffer is
    empty, yet a record without severity trigger that alone would fit
    ([len(p) <= BufferSize]) is not buffered when the bytes buffered before
    [Finalize] plus the record exceed [BufferSize]: it goes straight to the
    sink and the instance enters pass-through mode. *)
Theorem Write_after_Finalize_counts_old_bytes
    (success : bool) (rnd : float) p bw w bw1 w1 :
  shouldFlush bw = false ->
  bufferSize bw = len (buffer bw) ->
  Finalize fw success rnd bw w = Ret (tt, bw1, w1) ->
  shouldFlushNow (config bw) (parseLogLevel p) = false ->
  len p <= BufferSize (config bw) ->
  BufferSize (config bw) < len (buffer bw) + len p ->
  len (buffer bw) + len p <= GoInt.max_int ->
  buffer bw1 = [] /\
  shouldFlush bw1 = false /\
  Write fw p bw1 w1
  = Ret (fst (emit fw p w1), cleared bw1, snd (emit fw p w1)).
Proof.
  intros Hf Hsz HF Hnow Hfit Hover Hmax.
  rewrite Finalize_unflushed in HF by assumption.
  injection HF as <- <-. simpl.
  split; [reflexivity|]. split; [exact Hf|].
  pose proof (len_nonneg (buffer bw)). pose proof (len_nonneg p).
  rewrite (Write_overflow fw p (set_buffer [] bw)); simpl; try assumption.
  - now rewrite flush_world_empty by reflexivity.
  - unfold GoInt.add. rewrite wrap_in_range.
    + apply Z.ltb_lt. lia.
    + unfold GoInt.in_range, GoInt.min_int, GoInt.max_int in *. lia.
Qed.

End WriterLaws.

(** * The logger of the request context *)

Lemma key_eqb_eq (k1 k2 : ctx_key) : key_eqb k1 k2 = true <-> k1 = k2.
Proof.
  destruct k1 as [s1|t1 r1], k2 as [s2|t2 r2]; simpl.
  - rewrite String.eqb_eq. split; congruence.
  - split; discriminate.
  - split; discriminate.
  - rewrite andb_true_iff, !String.eqb_eq. split.
    + now intros [-> ->].
    + intros [= -> ->]. auto.
Qed.

Lemma key_eqb_neq (k1 k2 : ctx_key) : k1 <> k2 -> key_eqb k1 k2 = false.
Proof.
  intros H. destruct (key_eqb k1 k2) eqn:E; [|reflexivity].
  now apply key_eqb_eq in E.
Qed.

Lemma Value_with_values (ctx : Context) (bs : list (ctx_key * any))
    (key : ctx_key) :
  Forall (fun b => fst b <> key) bs ->
  Value (with_values ctx bs) key = Value ctx key.
Proof.
  revert ctx. induction bs as [|[k v] bs IH]; intros ctx Hbs.
  - reflexivity.
  - inversion Hbs as [|b bs' Hk Hrest]; subst. simpl in Hk.
    unfold with_values in *. simpl fold_left. rewrite IH by assumption.
    simpl. now rewrite key_eqb_neq.
Qed.

(** X12: a logger stored under [LoggerKey], as [Middleware] stores the
    request's logger, is what [GetLoggerFromContext] returns, through any
    number of later bindings of other keys; a nil logger comes back as nil,
    not as the fallback. *)
Theorem GetLoggerFromContext_round_trip
    (ctx : Context) (logger : logger_ptr) (bs : list (ctx_key * any)) :
  Forall (fun b => fst b <> LoggerKey) bs ->
  GetLoggerFromContext
    (with_values (WithValue ctx LoggerKey (AnyLogger logger)) bs)
  = logger.
Proof.
  intros Hbs. unfold GetLoggerFromContext.
  rewrite Value_with_values by assumption. reflexivity.
Qed.

Lemma Value_unbound (ctx : Context) (key : ctx_key) :
  ~ In key (bound_keys ctx) -> Value ctx key = AnyNil.
Proof.
  induction ctx as [|parent IH k v]; simpl; intros Hn.
  - reflexivity.
  - rewrite key_eqb_neq by (intros ->; apply Hn; now left).
    apply IH. intros Hin. apply Hn. now right.
Qed.

(** X13: [GetLoggerFromContext] falls back to the process-wide logger when
    the context binds [LoggerKey] nowhere, keys of other types spelled the
    same way not counting, and when the innermost binding of [LoggerKey]
    is not a [*zerolog.Logger], even if an outer binding is one. *)
Theorem GetLoggerFromContext_fallback :
  (forall ctx : Context,
      ~ In LoggerKey (bound_keys ctx) ->
      GetLoggerFromContext ctx = GlobalLogger) /\
  (forall (ctx : Context) (v : any),
      (forall logger, v <> AnyLogger logger) ->
      GetLoggerFromContext (WithValue ctx LoggerKey v) = GlobalLogger).
Proof.
  split.
  - intros ctx Hn. unfold GetLoggerFromContext.
    now rewrite Value_unbound.
  - intros ctx v Hv. unfold GetLoggerFromContext. simpl.
    destruct v as [|logger|t]; try reflexivity.
    now destruct (Hv logger).
Qed.

(** * The request middleware *)

Section MiddlewareLaws.

Context {error W : Type}.
Variable fw : bytes -> W -> (Z * option error) * W.
Variable started_line panicked_line : bytes.
Variable completed_line : Z -> bool -> bytes.

Implicit Types (bw : BufferingWriter) (w : World error W) (next : Handler).

#[local] Arguments run {error W} sink_write ops bw w : simpl never.
#[local] Arguments step {error W} sink_write o bw w : simpl never.

Lemma records_map_OpWrite (lines : list bytes) :
  records (map OpWrite lines) = lines.
Proof. induction lines as [|p lines IH]; simpl; congruence. Qed.

Lemma no_discard_map_OpWrite (lines : list bytes) :
  no_discard (map OpWrite lines) = true.
Proof. induction lines as [|p lines IH]; simpl; auto. Qed.

Lemma ServeHTTP_disabled (actions : list haction) w (out : list bytes)
    (rw : responseWriter) :
  ServeHTTP fw actions
    {| bufferingWriter := None; globalWriter := w;
       global_logger_out := out; wrappedWriter := rw |}
  = Ret {| bufferingWriter := None; globalWriter := w;
           global_logger_out := out ++ handler_lines actions;
           wrappedWriter :=
             {| statusCode := final_status (statusCode rw) actions |} |}.
Proof.
  revert out rw. induction actions as [|[line|code|b] actions IH];
    intros out rw; simpl.
  - rewrite app_nil_r. now destruct rw.
  - unfold log_event. simpl. rewrite IH. simpl. now rewrite <- app_assoc.
  - unfold set_wrappedWriter. simpl. now rewrite IH.
  - unfold set_wrappedWriter. simpl. now rewrite IH.
Qed.

Lemma ServeHTTP_enabled (actions : list haction) bw w (out : list bytes)
    (rw : responseWriter) :
  ServeHTTP fw actions
    {| bufferingWriter := Some bw; globalWriter := w;
       global_logger_out := out; wrappedWriter := rw |}
  = obind (run fw (map OpWrite (handler_lines actions)) bw w)
      (fun '(_, bw', w') =>
         Ret {| bufferingWriter := Some bw'; globalWriter := w';
                global_logger_out := out;
                wrappedWriter :=
                  {| statusCode := final_status (statusCode rw) actions |} |}).
Proof.
  revert bw w rw. induction actions as [|[line|code|b] actions IH];
    intros bw w rw; simpl.
  - now destruct rw.
  - unfold log_event. simpl. rewrite run_cons, step_Write.
    destruct (Write fw line bw w) as [[[r bw1] w1]|]; simpl; [|reflexivity].
    apply IH.
  - unfold set_wrappedWriter. simpl. now rewrite IH.
  - unfold set_wrappedWriter. simpl. now rewrite IH.
Qed.

(** With buffering enabled, one request is one sequence of calls on a new
    writer: a [Write] per line, then [Flush] after a panic, [Finalize]
    otherwise. *)
Lemma Middleware_enabled (cfg : Config) (id : string) (rnd : float) next w0 :
  BufferingEnabled cfg = true ->
  Middleware fw started_line panicked_line completed_line cfg id rnd next w0
  = obind
      (run fw
         (map OpWrite
            (request_lines started_line panicked_line completed_line next)
          ++ [if h_panics next then OpFlush
              else OpFinalize
                     (negb (400 <=? final_status 200 (h_actions next))) rnd])
         (NewBufferingWriter cfg id) w0)
      (fun '(_, bw, w) =>
         Ret (if h_panics next then Repanicked else Returned,
              {| bufferingWriter := Some bw; globalWriter := w;
                 global_logger_out := [];
                 wrappedWriter :=
                   {| statusCode :=
                        if h_panics next then 500
                        else final_status 200 (h_actions next) |} |})).
Proof.
  intros Hen. unfold Middleware, request_lines. rewrite Hen.
  simpl map. rewrite <- app_comm_cons, run_cons, step_Write.
  unfold log_event at 1. simpl.
  destruct (Write fw started_line (NewBufferingWriter cfg id) w0)
    as [[[r bw1] w1]|]; simpl; [|reflexivity].
  rewrite ServeHTTP_enabled, map_app, <- app_assoc, run_app.
  destruct (run fw (map OpWrite (handler_lines (h_actions next))) bw1 w1)
    as [[[[] bw2] w2]|]; simpl; [|reflexivity].
  destruct (h_panics next); simpl.
  - unfold log_event. simpl. rewrite run_cons, step_Write.
    destruct (Write fw panicked_line bw2 w2) as [[[r3 bw3] w3]|]; simpl;
      [|reflexivity].
    unfold flush_if_buffering. simpl. rewrite run_cons. unfold step.
    destruct (Flush fw bw3 w3) as [[[[] bw4] w4]|]; reflexivity.
  - unfold log_event. simpl. rewrite run_cons, step_Write.
    destruct (Write fw _ bw2 w2) as [[[r3 bw3] w3]|]; simpl; [|reflexivity].
    unfold finalize_if_buffering. simpl. rewrite run_cons. unfold step.
    destruct (Finalize fw _ rnd bw3 w3) as [[[[] bw4] w4]|]; reflexivity.
Qed.

(** X14: with [BufferingEnabled] false the middleware creates no buffering
    writer and never writes to [globalWriter]: every line of the request
    goes, in order, to the output of the process-wide logger, and the call
    cannot be cut short. *)
Theorem Middleware_disabled_bypasses_globalWriter
    (cfg : Config) (id : string) (rnd : float) next w0 :
  BufferingEnabled cfg = false ->
  Middleware fw started_line panicked_line completed_line cfg id rnd next w0
  = Ret (if h_panics next then Repanicked else Returned,
         {| bufferingWriter := None; globalWriter := w0;
            global_logger_out :=
              request_lines started_line panicked_line completed_line next;
            wrappedWriter :=
              {| statusCode :=
                   if h_panics next then 500
                   else final_status 200 (h_actions next) |} |}).
Proof.
  intros Hoff. unfold Middleware, request_lines. rewrite Hoff.
  unfold log_event at 1. simpl. rewrite ServeHTTP_disabled. simpl.
  destruct (h_panics next); simpl; unfold log_event; simpl; reflexivity.
Qed.

Lemma Middleware_settled (cfg : Config) (id : string) (rnd : float) next w0 :
  BufferingEnabled cfg = true ->
  h_panics next = true \/ 400 <= final_status 200 (h_actions next) ->
  Forall (fits cfg)
    (request_lines started_line panicked_line completed_line next) ->
  exists bw w,
    Middleware fw started_line panicked_line completed_line cfg id rnd next w0
    = Ret (if h_panics next then Repanicked else Returned,
           {| bufferingWriter := Some bw; globalWriter := w;
              global_logger_out := [];
              wrappedWriter :=
                {| statusCode :=
                     if h_panics next then 500
                     else final_status 200 (h_actions next) |} |}) /\
    concat (sent w) =
      concat (sent w0) ++
      concat (request_lines started_line panicked_line completed_line next) /\
    buffer bw = [] /\
    (h_panics next = true -> shouldFlush bw = true).
Proof.
  intros Hen Hfail Hfits. rewrite Middleware_enabled by assumption.
  set (lines := request_lines started_line panicked_line completed_line next)
    in *.
  set (last := if h_panics next then OpFlush
               else OpFinalize
                      (negb (400 <=? final_status 200 (h_actions next))) rnd).
  assert (Hlast : last = OpFlush \/ exists r, last = OpFinalize false r).
  { unfold last. destruct (h_panics next).
    - now left.
    - right. exists rnd. destruct Hfail as [Hp|Hs]; [discriminate|].
      apply Z.leb_le in Hs. now rewrite Hs. }
  assert (Hrec : records (map OpWrite lines ++ [last]) = lines).
  { rewrite records_app, records_map_OpWrite.
    destruct Hlast as [->|[r ->]]; simpl; now rewrite app_nil_r. }
  destruct (run_bounded fw cfg (map OpWrite lines ++ [last])
              (NewBufferingWriter cfg id) w0 (New_bounded cfg id))
    as [bw [w [E _]]].
  { now rewrite Hrec. }
  rewrite E. simpl. exists bw, w. split; [reflexivity|].
  destruct (run_settled fw (map OpWrite lines) last
              (NewBufferingWriter cfg id) w0 bw w
              (no_discard_map_OpWrite lines) Hlast
              (New_flushed_empty cfg id) E) as [Heq [Hb Hfl]].
  rewrite records_map_OpWrite in Heq. simpl in Heq.
  split; [exact Heq|]. split; [exact Hb|].
  intros Hp. apply Hfl. unfold last. now rewrite Hp.
Qed.

(** X15: with buffering enabled, a request whose handler returns with a
    final status code of 400 or more delivers every line it logged to
    [globalWriter], in order and once: the middleware's own two lines and
    the handler's in between, whatever their severities, [SaveRate] and the
    draw. *)
Theorem failed_request_delivers_every_line
    (cfg : Config) (id : string) (rnd : float) next w0 :
  BufferingEnabled cfg = true ->
  h_panics next = false ->
  400 <= final_status 200 (h_actions next) ->
  Forall (fits cfg)
    (request_lines started_line panicked_line completed_line next) ->
  exists bw w,
    Middleware fw started_line panicked_line completed_line cfg id rnd next w0
    = Ret (Returned,
           {| bufferingWriter := Some bw; globalWriter := w;
              global_logger_out := [];
              wrappedWriter :=
                {| statusCode := final_status 200 (h_actions next) |} |}) /\
    concat (sent w) =
      concat (sent w0) ++ started_line ++
      concat (handler_lines (h_actions next)) ++
      completed_line (final_status 200 (h_actions next)) false /\
    buffer bw = [].
Proof.
  intros Hen Hp Hs Hfits.
  destruct (Middleware_settled cfg id rnd next w0 Hen (or_intror Hs) Hfits)
    as [bw [w [E [Heq [Hb _]]]]].
  exists bw, w. rewrite Hp in E. split; [exact E|]. split; [|exact Hb].
  rewrite Heq. unfold request_lines. rewrite Hp.
  apply Z.leb_le in Hs. rewrite Hs. simpl.
  rewrite concat_app. simpl. now rewrite app_nil_r.
Qed.

(** X16: with buffering enabled, when the handler panics the middleware
    logs the panic and flushes before raising it again: every line logged
    up to and including the panic line reaches [globalWriter], in order and
    once, the writer is left in pass-through mode with an empty buffer,
    [Finalize] is not called, and the wrapper holds status 500. *)
Theorem panicking_request_delivers_every_line
    (cfg : Config) (id : string) (rnd : float) next w0 :
  BufferingEnabled cfg = true ->
  h_panics next = true ->
  Forall (fits cfg)
    (request_lines started_line panicked_line completed_line next) ->
  exists bw w,
    Middleware fw started_line panicked_line completed_line cfg id rnd next w0
    = Ret (Repanicked,
           {| bufferingWriter := Some bw; globalWriter := w;
              global_logger_out := [];
              wrappedWriter := {| statusCode := 500 |} |}) /\
    concat (sent w) =
      concat (sent w0) ++ started_line ++
      concat (handler_lines (h_actions next)) ++ panicked_line /\
    buffer bw = [] /\
    shouldFlush bw = true.
Proof.
  intros Hen Hp Hfits.
  destruct (Middleware_settled cfg id rnd next w0 Hen (or_introl Hp) Hfits)
    as [bw [w [E [Heq [Hb Hfl]]]]].
  exists bw, w. rewrite Hp in E. split; [exact E|].
  split; [|split; [exact Hb|now apply Hfl]].
  rewrite Heq. unfold request_lines. rewrite Hp. simpl.
  rewrite concat_app. simpl. now rewrite app_nil_r.
Qed.

(** X17: with buffering enabled and [SaveRate <= 0], a request whose
    handler returns with a status code below 400, whose lines trigger no
    severity flush and together fit in [BufferSize], leaves [globalWriter]
    untouched: all its lines are discarded by [Finalize]. *)
Theorem quiet_successful_request_is_silent
    (cfg : Config) (id : string) (rnd : float) next w0 :
  BufferingEnabled cfg = true ->
  (SaveRate cfg <=? 0)%float = true ->
  h_panics next = false ->
  final_status 200 (h_actions next) < 400 ->
  forallb (quiet cfg)
    (request_lines started_line panicked_line completed_line next) = true ->
  len (concat
         (request_lines started_line panicked_line completed_line next))
  <= BufferSize cfg ->
  BufferSize cfg <= GoInt.max_int ->
  Middleware fw started_line panicked_line completed_line cfg id rnd next w0
  = Ret (Returned,
         {| bufferingWriter :=
              Some {| buffer := []; shouldFlush := false; config := cfg;
                      requestID := id;
                      bufferSize :=
                        len (concat
                               (request_lines started_line panicked_line
                                  completed_line next)) |};
            globalWriter := w0;
            global_logger_out := [];
            wrappedWriter :=
              {| statusCode := final_status 200 (h_actions next) |} |}).
Proof.
  intros Hen Hrate Hp Hs Hq Hroom Hmax.
  rewrite Middleware_enabled by assumption. rewrite Hp.
  rewrite run_app.
  rewrite (run_quiet fw cfg _ (NewBufferingWriter cfg id) w0 eq_refl eq_refl
             eq_refl Hq Hroom Hmax). simpl.
  rewrite run_cons. unfold step.
  rewrite Finalize_unflushed by reflexivity.
  assert (Hok : (400 <=? final_status 200 (h_actions next)) = false)
    by (apply Z.leb_gt; exact Hs).
  rewrite Hok. unfold ShouldSaveOnSuccess. simpl. rewrite Hen, Hrate. simpl.
  reflexivity.
Qed.

(** X18: with buffering enabled and [SaveRate >= 100], a request whose
    handler returns delivers every line it logged to [globalWriter], in
    order and once, whatever the status code and the draw. *)
Theorem full_SaveRate_delivers_every_line
    (cfg : Config) (id : string) (rnd : float) next w0 :
  BufferingEnabled cfg = true ->
  (100 <=? SaveRate cfg)%float = true ->
  h_panics next = false ->
  Forall (fits cfg)
    (request_lines started_line panicked_line completed_line next) ->
  exists bw w,
    Middleware fw started_line panicked_line completed_line cfg id rnd next w0
    = Ret (Returned,
           {| bufferingWriter := Some bw; globalWriter := w;
              global_logger_out := [];
              wrappedWriter :=
                {| statusCode := final_status 200 (h_actions next) |} |}) /\
    concat (sent w) =
      concat (sent w0) ++
      concat (request_lines started_line panicked_line completed_line next) /\
    buffer bw = [].
Proof.
  intros Hen Hrate Hp Hfits. rewrite Middleware_enabled by assumption.
  rewrite Hp.
  set (lines := request_lines started_line panicked_line completed_line next)
    in *.
  set (success := negb (400 <=? final_status 200 (h_actions next))).
  rewrite run_app.
  destruct (run_bounded fw cfg (map OpWrite lines)
              (NewBufferingWriter cfg id) w0 (New_bounded cfg id))
    as [bw1 [w1 [E [Hc _]]]].
  { now rewrite records_map_OpWrite. }
  rewrite E.
  destruct (run_lossless fw (map OpWrite lines) (NewBufferingWriter cfg id)
              w0 bw1 w1 (no_discard_map_OpWrite lines)
              (New_flushed_empty cfg id) E) as [Inv1 Heq].
  rewrite records_map_OpWrite in Heq. simpl in Heq.
  rewrite run_cons. unfold step.
  destruct (shouldFlush bw1) eqn:Hf.
  - rewrite Finalize_flushed by assumption. simpl.
    exists bw1, w1. split; [reflexivity|].
    rewrite (Inv1 Hf), app_nil_r in Heq. split; [exact Heq|now apply Inv1].
  - rewrite Finalize_unflushed by assumption. simpl.
    assert (Hsave : negb success || ShouldSaveOnSuccess bw1 rnd = true).
    { unfold ShouldSaveOnSuccess. rewrite Hc, Hen. simpl.
      rewrite (leb_100_not_leb_0 _ Hrate), Hrate. apply orb_true_r. }
    rewrite Hsave. eexists _, _. split; [reflexivity|]. simpl.
    split; [|reflexivity]. now rewrite flush_world_concat.
Qed.

End MiddlewareLaws.

(** * The writer and the results of its sink *)

Section TwoSinks.

Context {error1 W1 error2 W2 : Type}.
Variable fw1 : bytes -> W1 -> (Z * option error1) * W1.
Variable fw2 : bytes -> W2 -> (Z * option error2) * W2.

Lemma step_same_on_any_sink (o : op) (bw bw' : BufferingWriter)
    (w1 w1' : World error1 W1) (w2 : World error2 W2) :
  sent w1 = sent w2 ->
  step fw1 o bw w1 = Ret (tt, bw', w1') ->
  exists w2',
    step fw2 o bw w2 = Ret (tt, bw', w2') /\ sent w1' = sent w2'.
Proof.
  intros Hs Hstep. destruct o as [p| |success rnd].
  - rewrite step_Write in Hstep. rewrite step_Write.
    destruct (shouldFlush bw) eqn:Hf.
    { rewrite (Write_passthrough fw1 p bw w1 Hf) in Hstep.
      rewrite (Write_passthrough fw2 p bw w2 Hf).
      injection Hstep as <- <-. eexists. split; [reflexivity|].
      now rewrite !emit_sent, Hs. }
    destruct (shouldFlushNow (config bw) (parseLogLevel p)) eqn:Hnow.
    { rewrite (Write_forced fw1 p bw w1 Hf Hnow) in Hstep.
      rewrite (Write_forced fw2 p bw w2 Hf Hnow).
      injection Hstep as <- <-. eexists. split; [reflexivity|].
      now rewrite !emit_sent, !flush_world_sent, Hs. }
    destruct (BufferSize (config bw) <? GoInt.add (bufferSize bw) (len p))
      eqn:Hover.
    { rewrite (Write_overflow fw1 p bw w1 Hf Hnow Hover) in Hstep.
      rewrite (Write_overflow fw2 p bw w2 Hf Hnow Hover).
      injection Hstep as <- <-. eexists. split; [reflexivity|].
      now rewrite !emit_sent, !flush_world_sent, Hs. }
    destruct (GoInt.max_int <? len (buffer bw) + len p) eqn:Hfit.
    { rewrite (Write_too_large fw1 p bw w1 Hf Hnow Hover Hfit) in Hstep.
      discriminate. }
    rewrite (Write_append fw1 p bw w1 Hf Hnow Hover Hfit) in Hstep.
    rewrite (Write_append fw2 p bw w2 Hf Hnow Hover Hfit).
    injection Hstep as <- <-. now exists w2.
  - simpl in *. rewrite Flush_eq in Hstep. rewrite Flush_eq.
    injection Hstep as <- <-.
    eexists. split; [reflexivity|]. now rewrite !flush_world_sent, Hs.
  - simpl in *. destruct (shouldFlush bw) eqn:Hf.
    + rewrite Finalize_flushed in Hstep by assumption.
      rewrite Finalize_flushed by assumption.
      injection Hstep as <- <-. now exists w2.
    + rewrite Finalize_unflushed in Hstep by assumption.
      rewrite Finalize_unflushed by assumption.
      injection Hstep as <- <-. eexists. split; [reflexivity|].
      destruct (negb success || ShouldSaveOnSuccess bw rnd);
        [now rewrite !flush_world_sent, Hs|exact Hs].
Qed.

(** X19: the writer never reacts to what the sink returns: if a sequence
    of calls returns with one sink, then with any other sink, of any
    behaviour, it returns with the same writer fields and has handed the
    same payloads, in the same calls, to the sink; no failure or short
    count is retried, rolled back or remembered. *)
Theorem writer_ignores_sink_results (ops : list op)
    (bw bw' : BufferingWriter)
    (w1 w1' : World error1 W1) (w2 : World error2 W2) :
  sent w1 = sent w2 ->
  run fw1 ops bw w1 = Ret (tt, bw', w1') ->
  exists w2',
    run fw2 ops bw w2 = Ret (tt, bw', w2') /\ sent w1' = sent w2'.
Proof.
  revert bw w1 w2. induction ops as [|o ops IH]; intros bw w1 w2 Hs Hrun.
  - injection Hrun as <- <-. now exists w2.
  - rewrite run_cons in Hrun.
    destruct (step fw1 o bw w1) as [[[[] bwa] wa]|] eqn:Hstep;
      [|discriminate].
    destruct (step_same_on_any_sink o bw bwa w1 wa w2 Hs Hstep)
      as [wb [Hstep2 Hs']].
    rewrite run_cons, Hstep2. now apply (IH bwa wa wb).
Qed.

End TwoSinks.

(** * A buffer size of zero or less *)

Section NoBuffer.

Context {error W : Type}.
Variable fw : bytes -> W -> (Z * option error) * W.

Implicit Types (bw : BufferingWriter) (w : World error W) (p : bytes).

Lemma len_zero_nil p : len p <= 0 -> p = [].
Proof.
  destruct p as [|x p]; [reflexivity|].
  unfold len. simpl length. lia.
Qed.

Lemma step_transparent (cfg : Config) (o : op) bw w :
  BufferSize cfg <= 0 ->
  bounded cfg bw ->
  Forall (fits cfg) (records [o]) ->
  exists bw' w',
    step fw o bw w = Ret (tt, bw', w') /\ bounded cfg bw' /\
    concat (sent w') = concat (sent w) ++ concat (records [o]).
Proof.
  intros Hz Hb Hfits.
  destruct (step_bounded fw cfg o bw w Hb Hfits) as [bw' [w' [E Hb']]].
  exists bw', w'. split; [exact E|]. split; [exact Hb'|].
  assert (Hnil : buffer bw = []).
  { destruct Hb as [_ [Hlen Hsize]]. apply len_zero_nil. lia. }
  destruct o as [p| |success rnd]; simpl records.
  - rewrite step_Write in E. simpl concat. rewrite app_nil_r.
    destruct (Write_cases fw p bw w)
      as [[Hf E']|[[Hf E']|[[Hf [_ [_ E']]]|[Hf E']]]];
      rewrite E' in E; try discriminate; injection E as <- <-.
    + now rewrite emit_sent, concat_app; simpl; rewrite app_nil_r.
    + rewrite emit_sent, concat_app, flush_world_empty by assumption.
      simpl. now rewrite app_nil_r.
    + destruct Hb' as [_ [Hlen' Hsize']]. simpl in Hlen', Hsize'.
      rewrite len_app in Hlen'.
      pose proof (len_nonneg (buffer bw)). pose proof (len_nonneg p).
      rewrite (len_zero_nil p) by lia. now rewrite app_nil_r.
  - simpl in E. rewrite Flush_eq in E. injection E as <- <-.
    rewrite flush_world_empty by assumption. simpl. now rewrite app_nil_r.
  - simpl. rewrite app_nil_r. simpl in E. destruct (shouldFlush bw) eqn:Hf.
    + rewrite Finalize_flushed in E by assumption. now injection E as <- <-.
    + rewrite Finalize_unflushed in E by assumption. injection E as <- <-.
      rewrite flush_world_empty by assumption.
      now destruct (negb success || ShouldSaveOnSuccess bw rnd).
Qed.

(** X20: a [BufferSize] of zero or less turns buffering off: over any
    sequence of [Write], [Flush] and [Finalize] calls on a new instance the
    buffer stays empty and the sink receives every byte written, in order,
    successful [Finalize] calls included. *)
Theorem nonpositive_BufferSize_buffers_nothing
    (cfg : Config) (id : string) (ops : list op) w0 :
  BufferSize cfg <= 0 ->
  Forall (fits cfg) (records ops) ->
  exists bw w,
    run fw ops (NewBufferingWriter cfg id) w0 = Ret (tt, bw, w) /\
    buffer bw = [] /\
    concat (sent w) = concat (sent w0) ++ concat (records ops).
Proof.
  intros Hz Hfits.
  assert (G : forall ops bw0 w0,
             bounded cfg bw0 -> Forall (fits cfg) (records ops) ->
             exists bw w,
               run fw ops bw0 w0 = Ret (tt, bw, w) /\ bounded cfg bw /\
               concat (sent w) = concat (sent w0) ++ concat (records ops)).
  { clear ops w0 Hfits. induction ops as [|o ops IH]; intros bw0 w0 Hb Hfits.
    - exists bw0, w0. simpl. rewrite app_nil_r. auto.
    - change (o :: ops) with ([o] ++ ops) in Hfits |- *.
      rewrite records_app in Hfits |- *. apply Forall_app in Hfits.
      destruct Hfits as [Ho Hrest].
      destruct (step_transparent cfg o bw0 w0 Hz Hb Ho)
        as [bw1 [w1 [E [Hb1 Hs1]]]].
      destruct (IH bw1 w1 Hb1 Hrest) as [bw [w [E' [Hb' Hs']]]].
      exists bw, w. simpl app. rewrite run_cons, E.
      split; [exact E'|]. split; [exact Hb'|].
      now rewrite Hs', Hs1, concat_app, <- app_assoc. }
  destruct (G ops (NewBufferingWriter cfg id) w0 (New_bounded cfg id) Hfits)
    as [bw [w [E [[_ [Hlen Hsize]] Hs]]]].
  exists bw, w. split; [exact E|]. split; [|exact Hs].
  apply len_zero_nil. lia.
Qed.

End NoBuffer.

(** * The further properties at sample inputs *)

Ltac fits_all :=
  repeat (apply Forall_cons; [vm_compute; discriminate|]); apply Forall_nil.

(** Two buffered records, the sink untouched. *)
Lemma unflushed_sink_untouched_witness :
  empty_world tt = empty_world tt /\
  buffer (buffered scenario_config (info_A ++ debug_B))
  = concat (records [OpWrite info_A; OpWrite debug_B]).
Proof.
  apply (unflushed_sink_untouched ok_write scenario_config "r1"
           [OpWrite info_A; OpWrite debug_B] (empty_world tt)
           (buffered scenario_config (info_A ++ debug_B)) (empty_world tt)).
  - reflexivity.
  - vm_compute. reflexivity.
  - reflexivity.
Defined.

(** Info, error, debug: the error record flushes, all three arrive. *)
Lemma lossless_without_discard_witness :
  concat (sent (ok_world [info_A; error_C; debug_B]))
  ++ buffer (cleared (buffered DefaultConfig info_A))
  = concat (records [OpWrite info_A; OpWrite error_C; OpWrite debug_B]).
Proof.
  apply (lossless_without_discard ok_write DefaultConfig "r1"
           [OpWrite info_A; OpWrite error_C; OpWrite debug_B]
           (empty_world tt)).
  - reflexivity.
  - reflexivity.
  - vm_compute. reflexivity.
Defined.

(** Two buffered records, then a failed [Finalize]. *)
Lemma terminated_delivers_everything_witness :
  concat (sent (ok_world [info_A ++ debug_B]))
  = concat (records [OpWrite info_A; OpWrite debug_B]) /\
  buffer (set_buffer [] (buffered scenario_config (info_A ++ debug_B))) = [].
Proof.
  apply (terminated_delivers_everything ok_write scenario_config "r1"
           [OpWrite info_A; OpWrite debug_B] (OpFinalize false 0.5)
           (empty_world tt)).
  - reflexivity.
  - right. now exists 0.5%float.
  - reflexivity.
  - vm_compute. reflexivity.
Defined.

(** [Flush] twice over a buffered record, then a write. *)
Lemma Flush_idempotent_witness :
  run ok_write [OpFlush; OpFlush; OpWrite debug_B]
    (buffered scenario_config info_A) (empty_world tt)
  = run ok_write [OpFlush; OpWrite debug_B]
      (buffered scenario_config info_A) (empty_world tt).
Proof.
  apply (Flush_idempotent ok_write OpFlush [OpWrite debug_B]
           (buffered scenario_config info_A) (empty_world tt)).
  now left.
Defined.

(** An error record over a buffered info record, default configuration. *)
Lemma Write_severity_flushes_witness :
  exists bw' w',
    Write ok_write error_C (buffered DefaultConfig info_A) (empty_world tt)
    = Ret (fst (emit ok_write error_C
                  (flush_world ok_write (buffered DefaultConfig info_A)
                     (empty_world tt))), bw', w') /\
    sent w' =
      sent (empty_world (W := unit) tt)
      ++ match buffer (buffered DefaultConfig info_A) with
         | [] => []
         | _ :: _ => [buffer (buffered DefaultConfig info_A)]
         end
      ++ [error_C] /\
    buffer bw' = [] /\
    shouldFlush bw' = true /\
    bufferSize bw' = bufferSize (buffered DefaultConfig info_A).
Proof.
  apply (Write_severity_flushes ok_write error_C
           (buffered DefaultConfig info_A) (empty_world tt)).
  - reflexivity.
  - left. split; [reflexivity|]. vm_compute. now left.
Defined.

(** A record holding an error line followed by a debug line is buffered
    under the default configuration. *)
Lemma low_marker_masks_severity_witness :
  shouldFlushNow (config (NewBufferingWriter DefaultConfig "r1"))
    (parseLogLevel (error_C ++ debug_B)) = false /\
  Write ok_write (error_C ++ debug_B) (NewBufferingWriter DefaultConfig "r1")
    (empty_world tt)
  = Ret ((len (error_C ++ debug_B), None),
         set_bufferSize
           (bufferSize (NewBufferingWriter DefaultConfig "r1")
            + len (error_C ++ debug_B))
           (set_buffer
              (buffer (NewBufferingWriter DefaultConfig "r1")
               ++ error_C ++ debug_B)
              (NewBufferingWriter DefaultConfig "r1")),
         empty_world tt).
Proof.
  apply (low_marker_masks_severity ok_write (error_C ++ debug_B) DebugLevel
           (NewBufferingWriter DefaultConfig "r1") (empty_world tt)).
  - vm_compute. auto.
  - apply Contains_spec. vm_compute. reflexivity.
  - reflexivity.
  - vm_compute. split; discriminate.
  - vm_compute. discriminate.
  - vm_compute. discriminate.
Defined.

(** A ten-byte buffer and records of thirty bytes. *)
Lemma buffer_never_exceeds_BufferSize_witness :
  exists bw w,
    run ok_write [OpWrite info_A; OpFinalize true 0.5; OpWrite debug_B]
      (NewBufferingWriter tiny_config "r1") (empty_world tt)
    = Ret (tt, bw, w) /\
    config bw = tiny_config /\
    len (buffer bw) <= Z.max 0 (BufferSize tiny_config).
Proof.
  apply (buffer_never_exceeds_BufferSize ok_write tiny_config "r1"
           [OpWrite info_A; OpFinalize true 0.5; OpWrite debug_B]
           (empty_world tt)).
  simpl records. fits_all.
Defined.

(** Two quiet records of sixty-one bytes in a buffer of 1024. *)
Lemma quiet_records_all_buffered_witness :
  run ok_write (map OpWrite [info_A; debug_B])
    (NewBufferingWriter scenario_config "r1") (empty_world tt)
  = Ret (tt,
         {| buffer := concat [info_A; debug_B]; shouldFlush := false;
            config := scenario_config; requestID := "r1";
            bufferSize := len (concat [info_A; debug_B]) |},
         empty_world tt).
Proof.
  apply (quiet_records_all_buffered ok_write scenario_config "r1"
           [info_A; debug_B] (empty_world tt)).
  - reflexivity.
  - vm_compute. discriminate.
  - vm_compute. discriminate.
Defined.

(** [SaveRate = 0]: a successful [Finalize] drops a buffered record. *)
Lemma Finalize_success_at_the_bounds_witness :
  Finalize ok_write true 0.5 (buffered scenario_config info_A)
    (empty_world tt)
  = Ret (tt, set_buffer [] (buffered scenario_config info_A),
         empty_world tt).
Proof.
  apply (proj1 (Finalize_success_at_the_bounds ok_write 0.5
                  (buffered scenario_config info_A) (empty_world tt)
                  eq_refl eq_refl)).
  reflexivity.
Defined.

(** [SaveRate = NaN]: the same. *)
Lemma NaN_SaveRate_never_saves_witness :
  ShouldSaveOnSuccess (buffered nan_config info_A) 0.5 = false /\
  (shouldFlush (buffered nan_config info_A) = false ->
   Finalize ok_write true 0.5 (buffered nan_config info_A) (empty_world tt)
   = Ret (tt, set_buffer [] (buffered nan_config info_A), empty_world tt)).
Proof.
  apply (NaN_SaveRate_never_saves ok_write 0.5 (buffered nan_config info_A)
           (empty_world tt)).
  - reflexivity.
  - reflexivity.
Defined.

(** Eight bytes buffered and discarded, then a record of three bytes
    against a limit of ten. *)
Lemma Write_after_Finalize_counts_old_bytes_witness :
  buffer (set_buffer [] (buffered tiny_config (lit "12345678"))) = [] /\
  shouldFlush (set_buffer [] (buffered tiny_config (lit "12345678")))
  = false /\
  Write ok_write (lit "abc")
    (set_buffer [] (buffered tiny_config (lit "12345678"))) (empty_world tt)
  = Ret (fst (emit ok_write (lit "abc") (empty_world tt)),
         cleared (set_buffer [] (buffered tiny_config (lit "12345678"))),
         snd (emit ok_write (lit "abc") (empty_world tt))).
Proof.
  apply (Write_after_Finalize_counts_old_bytes ok_write true 0.5 (lit "abc")
           (buffered tiny_config (lit "12345678")) (empty_world tt)).
  - reflexivity.
  - reflexivity.
  - vm_compute. reflexivity.
  - reflexivity.
  - vm_compute. discriminate.
  - reflexivity.
  - vm_compute. discriminate.
Defined.

(** A logger stored by the middleware, then two bindings of other keys,
    one of them a plain string spelled like [LoggerKey]. *)
Lemma GetLoggerFromContext_round_trip_witness :
  GetLoggerFromContext
    (with_values (WithValue Background LoggerKey (AnyLogger (LocalLogger 1)))
       [(ForeignKey "string" "emitlog", AnyOther "string");
        (ContextKeyOf "trace", AnyOther "string")])
  = LocalLogger 1.
Proof.
  apply (GetLoggerFromContext_round_trip Background (LocalLogger 1)).
  repeat (apply Forall_cons; [discriminate|]). apply Forall_nil.
Defined.

(** A logger stored under a plain string key is not found. *)
Lemma GetLoggerFromContext_fallback_witness :
  GetLoggerFromContext
    (WithValue Background (ForeignKey "string" "emitlog")
       (AnyLogger (LocalLogger 1)))
  = GlobalLogger.
Proof.
  apply (proj1 GetLoggerFromContext_fallback).
  simpl. intros [H|[]]. discriminate H.
Defined.

(** Buffering disabled, a handler that answers 500. *)
Lemma Middleware_disabled_bypasses_globalWriter_witness :
  Middleware ok_write sample_started sample_panicked sample_completed
    unbuffered_config "r1" 0.5 failing_handler (empty_world tt)
  = Ret (Returned,
         {| bufferingWriter := None; globalWriter := empty_world tt;
            global_logger_out :=
              request_lines sample_started sample_panicked sample_completed
                failing_handler;
            wrappedWriter := {| statusCode := 500 |} |}).
Proof.
  apply (Middleware_disabled_bypasses_globalWriter ok_write sample_started
           sample_panicked sample_completed unbuffered_config "r1" 0.5
           failing_handler (empty_world tt)).
  reflexivity.
Defined.

(** Nothing sampled, a handler that answers 500. *)
Lemma failed_request_delivers_every_line_witness :
  exists bw w,
    Middleware ok_write sample_started sample_panicked sample_completed
      scenario_config "r1" 0.5 failing_handler (empty_world tt)
    = Ret (Returned,
           {| bufferingWriter := Some bw; globalWriter := w;
              global_logger_out := [];
              wrappedWriter :=
                {| statusCode :=
                     final_status 200 (h_actions failing_handler) |} |}) /\
    concat (sent w) =
      concat (sent (empty_world (W := unit) tt)) ++ sample_started ++
      concat (handler_lines (h_actions failing_handler)) ++
      sample_completed (final_status 200 (h_actions failing_handler)) false /\
    buffer bw = [].
Proof.
  apply (failed_request_delivers_every_line ok_write sample_started
           sample_panicked sample_completed scenario_config "r1" 0.5
           failing_handler (empty_world tt)).
  - reflexivity.
  - reflexivity.
  - vm_compute. discriminate.
  - unfold request_lines. simpl. fits_all.
Defined.

(** Error flushes off, a handler that panics. *)
Lemma panicking_request_delivers_every_line_witness :
  exists bw w,
    Middleware ok_write sample_started sample_panicked sample_completed
      tiny_config "r1" 0.5 panicking_handler (empty_world tt)
    = Ret (Repanicked,
           {| bufferingWriter := Some bw; globalWriter := w;
              global_logger_out := [];
              wrappedWriter := {| statusCode := 500 |} |}) /\
    concat (sent w) =
      concat (sent (empty_world (W := unit) tt)) ++ sample_started ++
      concat (handler_lines (h_actions panicking_handler)) ++
      sample_panicked /\
    buffer bw = [] /\
    shouldFlush bw = true.
Proof.
  apply (panicking_request_delivers_every_line ok_write sample_started
           sample_panicked sample_completed tiny_config "r1" 0.5
           panicking_handler (empty_world tt)).
  - reflexivity.
  - reflexivity.
  - unfold request_lines. simpl. fits_all.
Defined.

(** Nothing sampled, a handler that answers 204. *)
Lemma quiet_successful_request_is_silent_witness :
  Middleware ok_write sample_started sample_panicked sample_completed
    scenario_config "r1" 0.5 quiet_handler (empty_world tt)
  = Ret (Returned,
         {| bufferingWriter :=
              Some {| buffer := []; shouldFlush := false;
                      config := scenario_config; requestID := "r1";
                      bufferSize :=
                        len (concat
                               (request_lines sample_started sample_panicked
                                  sample_completed quiet_handler)) |};
            globalWriter := empty_world tt;
            global_logger_out := [];
            wrappedWriter :=
              {| statusCode := final_status 200 (h_actions quiet_handler) |}
         |}).
Proof.
  apply (quiet_successful_request_is_silent ok_write sample_started
           sample_panicked sample_completed scenario_config "r1" 0.5
           quiet_handler (empty_world tt)).
  - reflexivity.
  - reflexivity.
  - reflexivity.
  - vm_compute. reflexivity.
  - vm_compute. reflexivity.
  - vm_compute. discriminate.
  - vm_compute. discriminate.
Defined.

(** Everything saved, a handler that answers 204. *)
Lemma full_SaveRate_delivers_every_line_witness :
  exists bw w,
    Middleware ok_write sample_started sample_panicked sample_completed
      full_config "r1" 0.5 quiet_handler (empty_world tt)
    = Ret (Returned,
           {| bufferingWriter := Some bw; globalWriter := w;
              global_logger_out := [];
              wrappedWriter :=
                {| statusCode :=
                     final_status 200 (h_actions quiet_handler) |} |}) /\
    concat (sent w) =
      concat (sent (empty_world (W := unit) tt)) ++
      concat (request_lines sample_started sample_panicked sample_completed
                quiet_handler) /\
    buffer bw = [].
Proof.
  apply (full_SaveRate_delivers_every_line ok_write sample_started
           sample_panicked sample_completed full_config "r1" 0.5
           quiet_handler (empty_world tt)).
  - reflexivity.
  - reflexivity.
  - reflexivity.
  - unfold request_lines. simpl. fits_all.
Defined.

(** The sink that accepts everything against the sink whose first call
    fails. *)
Lemma writer_ignores_sink_results_witness :
  exists w2',
    run flaky_write [OpWrite info_A; OpWrite error_C]
      (NewBufferingWriter DefaultConfig "r1") (empty_world 0%nat)
    = Ret (tt, cleared (buffered DefaultConfig info_A), w2') /\
    sent (ok_world [info_A; error_C]) = sent w2'.
Proof.
  apply (writer_ignores_sink_results ok_write flaky_write
           [OpWrite info_A; OpWrite error_C]
           (NewBufferingWriter DefaultConfig "r1")
           (cleared (buffered DefaultConfig info_A))
           (empty_world tt) (ok_world [info_A; error_C])
           (empty_world 0%nat)).
  - reflexivity.
  - vm_compute. reflexivity.
Defined.

(** A buffer of no bytes: a record, a successful [Finalize], a record. *)
Lemma nonpositive_BufferSize_buffers_nothing_witness :
  exists bw w,
    run ok_write [OpWrite info_A; OpFinalize true 0.5; OpWrite debug_B]
      (NewBufferingWriter zero_config "r1") (empty_world tt)
    = Ret (tt, bw, w) /\
    buffer bw = [] /\
    concat (sent w) =
      concat (sent (empty_world (W := unit) tt)) ++
      concat (records [OpWrite info_A; OpFinalize true 0.5; OpWrite debug_B]).
Proof.
  apply (nonpositive_BufferSize_buffers_nothing ok_write zero_config "r1"
           [OpWrite info_A; OpFinalize true 0.5; OpWrite debug_B]
           (empty_world tt)).
  - vm_compute. discriminate.
  - simpl records. fits_all.
Defined.
